(** * Unified-order request builder and response verifier (dev/makeOrder.go)

    A shallow embedding of [unifiedResult.ListParam], [unifiedResult.checkWxSign],
    [postUnifiedOrder] and [myPayer.UnifiedOrder], together with the parts of the
    [Params] type and of the [e] and [util] packages that they call. *)

From Stdlib Require Import ZArith Ascii String List Lia.
From stdpp Require Import base option list strings gmap sorting pretty.

Local Open Scope string_scope.
Local Open Scope Z_scope.
Local Open Scope list_scope.

(** ** Values and errors *)

(** A Go [interface{}] stored in a [Params] map.  Request fields are strings in
    the common case; integers stand for the other dynamic types a caller may
    store (a type assertion [t.(string)] on them panics). *)
Inductive value : Type :=
| VStr (s : string)
| VInt (n : Z).

Global Instance value_eq_dec : EqDecision value.
Proof. solve_decision. Defined.

(** [reflect.Value.IsZero] on the two kinds of value. *)
Definition IsZero (v : value) : bool :=
  match v with
  | VStr s => bool_decide (s = "")
  | VInt n => bool_decide (n = 0)
  end.

(** The type assertion [t.(string)]: [None] stands for the run-time panic. *)
Definition assert_string (v : value) : option string :=
  match v with
  | VStr s => Some s
  | VInt _ => None
  end.

(** The verb [%v] of [fmt.Sprintf], applied to the result of [Params.Get]
    (a nil interface prints as [<nil>]). *)
Definition fmt_v (v : option value) : string :=
  match v with
  | Some (VStr s) => s
  | Some (VInt n) => pretty n
  | None => "<nil>"
  end.

(** Modelled from the spec: the sentinel errors of package [e] that
    makeOrder.go names (the NilParams, MissingTradeType, MissingOpenId,
    InvalidAlgorithm, MissingSignature and SignatureMismatch of the spec), as
    six distinct values.  The last two constructors are not sentinels:
    [errors_New] is an error built by [errors.New] inside makeOrder.go, and
    [ErrForeign] is an error value handed back by a collaborator
    ([checkForPay], the XML codec, [net/http]). *)
Inductive error : Type :=
| ErrParams
| ErrTradeType
| ErrOpenId
| ErrSignType
| ErrNoSign
| ErrCheckSign
| errors_New (msg : string)
| ErrForeign (msg : string).

Global Instance error_eq_dec : EqDecision error.
Proof. solve_decision. Defined.

(** Modelled from the spec: the two constants [e.SignTypeMD5] and
    [e.SignType256] of package [e] (SignatureAlgorithm: enumerated
    {MD5, HMAC-SHA256}). *)
Definition SignTypeMD5 : string := "MD5".
Definition SignType256 : string := "HMAC-SHA256".

(** ** Params *)

(** [type Params map[string]interface{}]. *)
Abbreviation Params := (gmap string value).

(** Modelled from the spec: [Params.Add] ("inserts/overwrites"). *)
Definition Add (p : Params) (key : string) (v : value) : Params := <[key := v]> p.

(** Modelled from the spec: [Params.Get] ("returns the value or an absence
    indicator; never throws for a missing key"). *)
Definition Get (p : Params) (key : string) : option value := p !! key.

(** Modelled from the spec: [Params.SortKey] ("returns all keys with
    non-empty/non-zero values, sorted by byte-lexicographic order of the key
    strings"). *)
Definition SortKey (p : Params) : list string :=
  merge_sort String.le (map_to_list (filter (λ kv, IsZero kv.2 = false) p)).*1.

(** Modelled from the spec: [util.HaveInArray], membership in a slice of
    strings ("must belong to either the required-set or the documented
    optional-set"). *)
Definition HaveInArray (arr : list string) (x : string) : bool :=
  existsb (String.eqb x) arr.

(** ASCII upper-casing, which is what [strings.ToUpper] does on a hexadecimal
    digest. *)
Definition upper_ascii (c : ascii) : ascii :=
  let n := N_of_ascii c in
  if ((97 <=? n) && (n <=? 122))%N then ascii_of_N (n - 32) else c.

Fixpoint ToUpper (s : string) : string :=
  match s with
  | "" => ""
  | String c s' => String (upper_ascii c) (ToUpper s')
  end.

(** ** Digests (package util)

    MD5 (RFC 1321), SHA-256 (FIPS 180-4) and HMAC (RFC 2104) on bytes and
    32-bit words kept in [Z]. *)

Module Bytes.
Definition w32 (x : Z) : Z := Z.land x 0xffffffff.
Definition not32 (x : Z) : Z := Z.lxor x 0xffffffff.
Definition rotl (x c : Z) : Z :=
  w32 (Z.lor (Z.shiftl x c) (Z.shiftr x (32 - c))).
Definition rotr (x c : Z) : Z := rotl x (32 - c).

Definition of_string (s : string) : list Z :=
  (λ c, Z.of_N (N_of_ascii c)) <$> list_ascii_of_string s.

Definition byte (x k : Z) : Z := Z.land (Z.shiftr x (8 * k)) 0xff.
Definition le32 (x : Z) : list Z := [byte x 0; byte x 1; byte x 2; byte x 3].
Definition be32 (x : Z) : list Z := [byte x 3; byte x 2; byte x 1; byte x 0].
Definition le64 (x : Z) : list Z := le32 x ++ le32 (Z.shiftr x 32).
Definition be64 (x : Z) : list Z := be32 (Z.shiftr x 32) ++ be32 x.

Definition word_le (b : list Z) : Z :=
  foldr (λ x acc, x + 256 * acc) 0 b.
Definition word_be (b : list Z) : Z :=
  foldl (λ acc x, 256 * acc + x) 0 b.

Fixpoint chunks {A} (n : nat) (size : nat) (l : list A) : list (list A) :=
  match n with
  | O => []
  | S n' => take size l :: chunks n' size (drop size l)
  end.

Definition hex_digit (n : Z) : ascii :=
  ascii_of_N (Z.to_N (if n <? 10 then 48 + n else 87 + n)).
Definition hex_byte (b : Z) (s : string) : string :=
  String (hex_digit (Z.shiftr b 4)) (String (hex_digit (Z.land b 15)) s).
Definition hex (bs : list Z) : string := foldr hex_byte "" bs.
End Bytes.

Module Md5.
Import Bytes.
Definition K : list Z :=
  [0xd76aa478; 0xe8c7b756; 0x242070db; 0xc1bdceee; 0xf57c0faf; 0x4787c62a;
   0xa8304613; 0xfd469501; 0x698098d8; 0x8b44f7af; 0xffff5bb1; 0x895cd7be;
   0x6b901122; 0xfd987193; 0xa679438e; 0x49b40821; 0xf61e2562; 0xc040b340;
   0x265e5a51; 0xe9b6c7aa; 0xd62f105d; 0x02441453; 0xd8a1e681; 0xe7d3fbc8;
   0x21e1cde6; 0xc33707d6; 0xf4d50d87; 0x455a14ed; 0xa9e3e905; 0xfcefa3f8;
   0x676f02d9; 0x8d2a4c8a; 0xfffa3942; 0x8771f681; 0x6d9d6122; 0xfde5380c;
   0xa4beea44; 0x4bdecfa9; 0xf6bb4b60; 0xbebfbc70; 0x289b7ec6; 0xeaa127fa;
   0xd4ef3085; 0x04881d05; 0xd9d4d039; 0xe6db99e5; 0x1fa27cf8; 0xc4ac5665;
   0xf4292244; 0x432aff97; 0xab9423a7; 0xfc93a039; 0x655b59c3; 0x8f0ccc92;
   0xffeff47d; 0x85845dd1; 0x6fa87e4f; 0xfe2ce6e0; 0xa3014314; 0x4e0811a1;
   0xf7537e82; 0xbd3af235; 0x2ad7d2bb; 0xeb86d391].
Definition shifts : list Z :=
  [7; 12; 17; 22; 7; 12; 17; 22; 7; 12; 17; 22; 7; 12; 17; 22;
   5; 9; 14; 20; 5; 9; 14; 20; 5; 9; 14; 20; 5; 9; 14; 20;
   4; 11; 16; 23; 4; 11; 16; 23; 4; 11; 16; 23; 4; 11; 16; 23;
   6; 10; 15; 21; 6; 10; 15; 21; 6; 10; 15; 21; 6; 10; 15; 21].

Definition pad (msg : list Z) : list Z :=
  let n := Z.of_nat (length msg) in
  msg ++ 0x80 :: replicate (Z.to_nat ((55 - n) mod 64)) 0 ++ le64 (8 * n).

Definition state : Type := Z * Z * Z * Z.

Definition step (M : list Z) (st : state) (i : nat) : state :=
  let '(a, b, c, d) := st in
  let iz := Z.of_nat i in
  let '(f, g) :=
    if iz <? 16 then (Z.lor (Z.land b c) (Z.land (not32 b) d), iz)
    else if iz <? 32 then (Z.lor (Z.land d b) (Z.land (not32 d) c), (5 * iz + 1) mod 16)
    else if iz <? 48 then (Z.lxor (Z.lxor b c) d, (3 * iz + 5) mod 16)
    else (Z.lxor c (Z.lor b (not32 d)), (7 * iz) mod 16) in
  let f' := w32 (f + a + nth i K 0 + nth (Z.to_nat g) M 0) in
  (d, w32 (b + rotl f' (nth i shifts 0)), b, c).

Definition block (st : state) (blk : list Z) : state :=
  let M := word_le <$> chunks 16 4 blk in
  let '(a, b, c, d) := st in
  let '(a', b', c', d') := foldl (step M) st (seq 0 64) in
  (w32 (a + a'), w32 (b + b'), w32 (c + c'), w32 (d + d')).

Definition digest (msg : list Z) : list Z :=
  let p := pad msg in
  let '(a, b, c, d) :=
    foldl block (0x67452301, 0xefcdab89, 0x98badcfe, 0x10325476)
          (chunks (length p / 64) 64 p) in
  le32 a ++ le32 b ++ le32 c ++ le32 d.

(** Modelled from the spec: [util.SignMd5], which is not part of makeOrder.go
    ("canonical string, MD5 digest, hex string"; the caller upper-cases). *)
Definition SignMd5 (s : string) : string := hex (digest (of_string s)).
End Md5.

Module Sha256.
Import Bytes.

(** The first 64 primes. *)
Definition is_prime (n : nat) : bool :=
  forallb (λ d, negb (Nat.eqb (n mod d) 0)) (seq 2 (n - 2)).
Definition primes : list Z :=
  Eval vm_compute in Z.of_nat <$> List.filter is_prime (seq 2 310).

(** The integer cube root, by bisection between [lo] and [hi]. *)
Fixpoint cube_root (fuel : nat) (lo hi n : Z) : Z :=
  match fuel with
  | O => lo
  | S fuel' =>
      if hi - lo <=? 1 then lo
      else
        let mid := (lo + hi) / 2 in
        if mid * mid * mid <=? n then cube_root fuel' mid hi n
        else cube_root fuel' lo mid n
  end.

(** The round constants: the first 32 bits of the fractional parts of the
    cube roots of the first 64 primes. *)
Definition K : list Z :=
  Eval vm_compute in
    (λ p, w32 (cube_root 64 0 (2 ^ 36) (p * 2 ^ 96))) <$> primes.

(** The initial hash value: the first 32 bits of the fractional parts of the
    square roots of the first 8 primes. *)
Definition H0 : list Z :=
  Eval vm_compute in (λ p, w32 (Z.sqrt (p * 2 ^ 64))) <$> take 8 primes.

Definition pad (msg : list Z) : list Z :=
  let n := Z.of_nat (length msg) in
  msg ++ 0x80 :: replicate (Z.to_nat ((55 - n) mod 64)) 0 ++ be64 (8 * n).

Definition xor3 (a b c : Z) : Z := Z.lxor (Z.lxor a b) c.

(** One more word of the message schedule; [w] holds the words so far,
    newest first. *)
Definition extend (w : list Z) (_ : nat) : list Z :=
  let w2 := nth 1 w 0 in
  let w7 := nth 6 w 0 in
  let w15 := nth 14 w 0 in
  let w16 := nth 15 w 0 in
  let s0 := xor3 (rotr w15 7) (rotr w15 18) (Z.shiftr w15 3) in
  let s1 := xor3 (rotr w2 17) (rotr w2 19) (Z.shiftr w2 10) in
  w32 (w16 + s0 + w7 + s1) :: w.

Definition schedule (blk : list Z) : list Z :=
  rev (foldl extend (rev (word_be <$> chunks 16 4 blk)) (seq 16 48)).

Definition round (st : list Z) (kw : Z * Z) : list Z :=
  match st with
  | [a; b; c; d; e; f; g; h] =>
      let S1 := xor3 (rotr e 6) (rotr e 11) (rotr e 25) in
      let ch := Z.lxor (Z.land e f) (Z.land (not32 e) g) in
      let t1 := w32 (h + S1 + ch + kw.1 + kw.2) in
      let S0 := xor3 (rotr a 2) (rotr a 13) (rotr a 22) in
      let maj := xor3 (Z.land a b) (Z.land a c) (Z.land b c) in
      let t2 := w32 (S0 + maj) in
      [w32 (t1 + t2); a; b; c; w32 (d + t1); e; f; g]
  | _ => st
  end.

Definition block (st : list Z) (blk : list Z) : list Z :=
  zip_with (λ x y, w32 (x + y)) st (foldl round st (zip K (schedule blk))).

Definition digest (msg : list Z) : list Z :=
  let p := pad msg in
  foldl block H0 (chunks (length p / 64) 64 p) ≫= be32.

(** HMAC (RFC 2104) with SHA-256, block size 64. *)
Definition hmac (key msg : list Z) : list Z :=
  let k := if (64 <? Z.of_nat (length key)) then digest key else key in
  let k := k ++ replicate (64 - length k) 0 in
  digest ((Z.lxor 0x5c <$> k) ++ digest ((Z.lxor 0x36 <$> k) ++ msg)).

(** Modelled from the spec: [util.SignHMACSHA256], which is not part of
    makeOrder.go ("canonical string, HMAC-SHA256 digest keyed by the shared
    secret, hex string"; the caller upper-cases). *)
Definition SignHMACSHA256 (s key : string) : string :=
  hex (hmac (of_string key) (of_string s)).
End Sha256.

(** ** The response record *)

Record unifiedResult : Type := mkResult {
  ReturnCode : string;
  ReturnMsg : string;
  Appid : string;
  MchId : string;
  DeviceInfo : string;
  NonceStr : string;
  Sign : string;
  ResultCode : string;
  ErrCode : string;
  ErrCodeDes : string;
  TradeType : string;
  PrepayId : string;
  CodeUrl : string
}.

(** The double quote, and a struct tag [xml:<quote>name<quote>]. *)
Definition dquote : ascii := "034"%char.
Definition xml_tag (name : string) : string :=
  "xml:" +:+ String dquote name +:+ String dquote "".

(** [strings.Split] with a separator of one byte. *)
Fixpoint Split (s : string) (sep : ascii) : list string :=
  match s with
  | "" => [""]
  | String c s' =>
      if Ascii.eqb c sep then "" :: Split s' sep
      else match Split s' sep with
           | w :: ws => String c w :: ws
           | [] => [String c ""]
           end
  end.

(** What [reflect.TypeOf(u)] and [reflect.ValueOf(u)] enumerate: the struct
    tag and the value of each field, in declaration order. *)
Definition reflect_fields (u : unifiedResult) : list (string * string) :=
  [ (xml_tag "return_code", ReturnCode u);
    (xml_tag "return_msg", ReturnMsg u);
    (xml_tag "appid", Appid u);
    (xml_tag "mch_id", MchId u);
    (xml_tag "device_info", DeviceInfo u);
    (xml_tag "nonce_str", NonceStr u);
    (xml_tag "sign", Sign u);
    (xml_tag "result_code", ResultCode u);
    (xml_tag "err_code", ErrCode u);
    (xml_tag "err_code_des", ErrCodeDes u);
    (xml_tag "trade_type", TradeType u);
    (xml_tag "prepay_id", PrepayId u);
    (xml_tag "code_url", CodeUrl u) ].

(** [strings.Split(string(t.Field(i).Tag), quote)[1]]. *)
Definition tagName (tag : string) : string := nth 1 (Split tag dquote) "".

Definition ListParam_step (p : Params) (f : string * string) : Params :=
  if bool_decide (f.2 = "") then p else <[tagName f.1 := VStr f.2]> p.

Definition ListParam (u : unifiedResult) : Params :=
  foldl ListParam_step ∅ (reflect_fields u).

(** Lines 39-72, the [switch] on [key]: the field with a nil error, or nil
    with the error [invalid key: key]. *)
Definition Param (u : unifiedResult) (key : string) : option value * option error :=
  if bool_decide (key = "return_code") then (Some (VStr (ReturnCode u)), None)
  else if bool_decide (key = "return_msg") then (Some (VStr (ReturnMsg u)), None)
  else if bool_decide (key = "appid") then (Some (VStr (Appid u)), None)
  else if bool_decide (key = "mch_id") then (Some (VStr (MchId u)), None)
  else if bool_decide (key = "device_info") then (Some (VStr (DeviceInfo u)), None)
  else if bool_decide (key = "nonce_str") then (Some (VStr (NonceStr u)), None)
  else if bool_decide (key = "sign") then (Some (VStr (Sign u)), None)
  else if bool_decide (key = "result_code") then (Some (VStr (ResultCode u)), None)
  else if bool_decide (key = "err_code") then (Some (VStr (ErrCode u)), None)
  else if bool_decide (key = "err_code_des") then (Some (VStr (ErrCodeDes u)), None)
  else if bool_decide (key = "trade_type") then (Some (VStr (TradeType u)), None)
  else if bool_decide (key = "prepay_id") then (Some (VStr (PrepayId u)), None)
  else if bool_decide (key = "code_url") then (Some (VStr (CodeUrl u)), None)
  else (None, Some (errors_New ("invalid key: " +:+ key))).

(** ** Credentials and collaborators *)

(** The fields of [myPayer] that makeOrder.go reads. *)
Record myPayer : Type := mkPayer {
  appId : string;
  mchId : string;
  apiKey : string
}.

(** What [http.Post] hands back when it does not fail. *)
Record Response : Type := mkResponse {
  StatusCode : Z;
  Body : string
}.

(** One call of [http.Post]. *)
Record request : Type := mkRequest {
  req_url : string;
  req_contentType : string;
  req_body : string
}.

(** Everything makeOrder.go takes from outside: the package-level
    [defaultPayer], the method [checkForPay] of [myPayer], the XML encoder
    behind [Params.MarshalXML], the transport [http.Post], the XML decoder, and
    the order in which a [range] loop visits the keys of a map, which Go leaves
    unspecified.  A failing collaborator yields the text of its error; the
    decoder hands back the pointer it filled (nil or not) next to its error,
    as [Decode(&result)] does. *)
Class World : Type := mkWorld {
  defaultPayer : myPayer;
  checkForPay : myPayer → option error;
  MarshalXML : Params → string + string;
  http_Post : string → string → string → string + Response;
  xml_Decode : string → option unifiedResult * option string;
  range : Params → list string;
  range_keys : ∀ p : Params, range p ≡ₚ (map_to_list p).*1
}.

(** A Go call either returns or panics. *)
Inductive go (A : Type) : Type :=
| Returns (a : A)
| Panics.
Arguments Returns {A} a.
Arguments Panics {A}.

(** ** Signing (Params.Sign) *)

(** The pair emitted for key [k]. *)
Definition pair_of (param : Params) (k : string) : string :=
  k +:+ "=" +:+ fmt_v (Get param k).

(** The pairs [key=value] of the keys that take part in a signature. *)
Definition pairs (p : Params) : list string :=
  pair_of p <$> filter (λ k, k ≠ "sign") (SortKey p).

(** The canonical string of the spec: the pairs joined with [&], nothing
    before the first one, then [&key=] and the shared secret. *)
Definition canonical (p : Params) (key : string) : string :=
  String.concat "&" (pairs p) +:+ "&key=" +:+ key.

(** The [switch] of lines 115-120, shared with [Params.Sign]: the upper-cased
    digest of [signStr] under [signType] ([key] is the HMAC key). *)
Definition digest (signType signStr key : string) : string :=
  if bool_decide (signType = SignTypeMD5) then ToUpper (Md5.SignMd5 signStr)
  else if bool_decide (signType = SignType256) then
    ToUpper (Sha256.SignHMACSHA256 signStr key)
  else "".

(** Modelled from the spec: [Params.Sign], which is not part of makeOrder.go
    ("returns the signature string; fails with InvalidAlgorithm if the
    algorithm is not one of the two supported values"), over the
    canonicalization rule of the spec. *)
Definition Params_Sign `{W : World} (p : Params) (signType : string) : string * option error :=
  if bool_decide (signType = SignTypeMD5 ∨ signType = SignType256) then
    (digest signType (canonical p (apiKey defaultPayer)) (apiKey defaultPayer), None)
  else ("", Some ErrSignType).

(** ** checkWxSign *)

(** The loop of lines 102-113: [i] is the index in [keys], [signStr] the
    string built so far. *)
Fixpoint signStr_loop (param : Params) (i : nat) (keys : list string) (signStr : string) : string :=
  match keys with
  | [] => signStr
  | k :: keys' =>
      if bool_decide (k = "sign") then signStr_loop param (S i) keys' signStr
      else
        let str :=
          if bool_decide (i = 0%nat) then k +:+ "=" +:+ fmt_v (Get param k)
          else "&" +:+ k +:+ "=" +:+ fmt_v (Get param k) in
        signStr_loop param (S i) keys' (signStr +:+ str)
  end.

(** The string that [checkWxSign] hashes (lines 97-114). *)
Definition signStr_of `{W : World} (u : unifiedResult) : string :=
  let param := ListParam u in
  let keys := SortKey param in
  signStr_loop param 0 keys "" +:+ "&key=" +:+ apiKey defaultPayer.

Definition checkWxSign `{W : World} (u : unifiedResult) (signType : string) : go (bool * option error) :=
  let signType := if bool_decide (signType = "") then SignTypeMD5 else signType in
  if bool_decide (signType ≠ SignTypeMD5) && bool_decide (signType ≠ SignType256) then
    Returns (false, Some ErrSignType)
  else
    let param := ListParam u in
    let signStr := signStr_of u in
    let sign := digest signType signStr (apiKey defaultPayer) in
    match Get param "sign" with
    | None => Returns (false, Some ErrNoSign)
    | Some v =>
        match assert_string v with
        | Some s => Returns (bool_decide (sign = s), None)
        | None => Panics
        end
    end.

(** ** postUnifiedOrder and UnifiedOrder *)

Definition unifiedMustParam : list string :=
  ["appid"; "mch_id"; "nonce_str"; "body"; "out_trade_no"; "total_fee";
   "spbill_create_ip"; "notify_url"; "trade_type"].
Definition unifiedOptionalParam : list string :=
  ["device_info"; "sign_type"; "detail"; "attach"; "fee_type"; "time_start";
   "time_expire"; "goods_tag"; "limit_pay"; "receipt"; "openid"].

Definition unifiedOrderUrl : string := "https://api.mch.weixin.qq.com/pay/unifiedorder".

Definition postUnifiedOrder `{W : World} (url contentType body : string)
  : option unifiedResult * option error :=
  match http_Post url contentType body with
  | inl msg => (None, Some (ErrForeign msg))
  | inr response =>
      if bool_decide (StatusCode response ≠ 200) then
        (None, Some (errors_New ("http StatusCode: " +:+ pretty (StatusCode response))))
      else
        let '(result, err) := xml_Decode (Body response) in
        (result, ErrForeign <$> err)
  end.

(** What a call of [UnifiedOrder] leaves behind: the caller's map (the
    argument is a reference, so [Add] is seen by the caller), the requests
    handed to [http.Post], and the returned pair (or a panic). *)
Record run : Type := mkRun {
  caller_param : option Params;
  posted : list request;
  returned : go (option unifiedResult * option error)
}.

(** Lines 186-196: the gates on a decoded response. *)
Definition gates `{W : World} (signType : string) (result : unifiedResult)
  : go (option unifiedResult * option error) :=
  if bool_decide (ReturnCode result ≠ "SUCCESS") then
    Returns (None, Some (errors_New (ReturnMsg result)))
  else if bool_decide (ResultCode result ≠ "SUCCESS") then
    Returns (None, Some (errors_New (ErrCodeDes result)))
  else
    match checkWxSign result signType with
    | Panics => Panics
    | Returns (ok, err) =>
        if negb ok || bool_decide (err ≠ None) then Returns (None, Some ErrCheckSign)
        else Returns (Some result, None)
    end.

(** The first element of [unifiedMustParam] that is not a key of [param]
    (lines 156-163). *)
Definition missing_must (param : Params) : option string :=
  find (λ v, negb (bool_decide (v = "sign")) && bool_decide (param !! v = None))
       unifiedMustParam.

(** The first key met by [range param] that is in neither slice
    (lines 165-169). *)
Definition unneeded `{W : World} (param : Params) : option string :=
  find (λ key, negb (HaveInArray unifiedMustParam key)
               && negb (HaveInArray unifiedOptionalParam key))
       (range param).

(** Lines 171-196: sign the validated map, serialize it, post it and pass
    the decoded response through the gates. *)
Definition sign_and_send `{W : World} (param : Params) (signType : string) : run :=
  match Params_Sign param signType with
  | (_, Some err) => mkRun (Some param) [] (Returns (None, Some err))
  | (sign, None) =>
  let param := Add param "sign" (VStr sign) in
  match MarshalXML param with
  | inl msg => mkRun (Some param) [] (Returns (None, Some (ErrForeign msg)))
  | inr reader =>
  let sent := [mkRequest unifiedOrderUrl "application/xml;charset=utf-8" reader] in
  match postUnifiedOrder unifiedOrderUrl "application/xml;charset=utf-8" reader with
  | (_, Some err) => mkRun (Some param) sent (Returns (None, Some err))
  | (None, None) => mkRun (Some param) sent Panics
  | (Some result, None) => mkRun (Some param) sent (gates signType result)
  end end end.

(** Lines 128-169, then [sign_and_send]. *)
Definition UnifiedOrder `{W : World} (m : myPayer) (param : option Params) : run :=
  match param with
  | None => mkRun None [] (Returns (None, Some ErrParams))
  | Some param =>
  match checkForPay m with
  | Some err => mkRun (Some param) [] (Returns (None, Some err))
  | None =>
  let param := Add param "appid" (VStr (appId m)) in
  let param := Add param "mch_id" (VStr (mchId m)) in
  match param !! "trade_type" with
  | None => mkRun (Some param) [] (Returns (None, Some ErrTradeType))
  | Some t =>
  match assert_string t with
  | None => mkRun (Some param) [] Panics
  | Some tradeType =>
  match (match param !! "sign_type" with
         | Some t => assert_string t
         | None => Some SignTypeMD5
         end) with
  | None => mkRun (Some param) [] Panics
  | Some signType =>
  if bool_decide (tradeType = "JSAPI") && bool_decide (param !! "openid" = None) then
    mkRun (Some param) [] (Returns (None, Some ErrOpenId))
  else
  match missing_must param with
  | Some v => mkRun (Some param) [] (Returns (None, Some (errors_New ("need " +:+ v))))
  | None =>
  match unneeded param with
  | Some key =>
      mkRun (Some param) [] (Returns (None, Some (errors_New ("no need " +:+ key +:+ " param"))))
  | None => sign_and_send param signType
  end end end end end end end.

(** ** Notions used in the statements *)

(** The wire name and the value of every field, as [ListParam] reads them. *)
Definition named_fields (u : unifiedResult) : list (string * string) :=
  [ ("return_code", ReturnCode u); ("return_msg", ReturnMsg u);
    ("appid", Appid u); ("mch_id", MchId u); ("device_info", DeviceInfo u);
    ("nonce_str", NonceStr u); ("sign", Sign u); ("result_code", ResultCode u);
    ("err_code", ErrCode u); ("err_code_des", ErrCodeDes u);
    ("trade_type", TradeType u); ("prepay_id", PrepayId u);
    ("code_url", CodeUrl u) ].

(** Every pair with a separator in front. *)
Definition amp_join (ps : list string) : string :=
  foldr (λ p acc, "&" +:+ p +:+ acc) "" ps.

(** The algorithms [checkWxSign] accepts, the empty string standing for MD5. *)
Definition supported (signType : string) : Prop :=
  signType = "" ∨ signType = SignTypeMD5 ∨ signType = SignType256.

Definition effective (signType : string) : string :=
  if bool_decide (signType = "") then SignTypeMD5 else signType.

(** The signature [checkWxSign] recomputes for [u]. *)
Definition wxSign `{W : World} (u : unifiedResult) (signType : string) : string :=
  digest (effective signType) (signStr_of u) (apiKey defaultPayer).

(** The signature of [u] under the canonicalization rule of the spec. *)
Definition recomputed `{W : World} (u : unifiedResult) (signType : string) : string :=
  digest signType (canonical (ListParam u) (apiKey defaultPayer)) (apiKey defaultPayer).

(** [u] with its [Sign] field set to [s]. *)
Definition with_Sign (u : unifiedResult) (s : string) : unifiedResult :=
  mkResult (ReturnCode u) (ReturnMsg u) (Appid u) (MchId u) (DeviceInfo u)
    (NonceStr u) s (ResultCode u) (ErrCode u) (ErrCodeDes u) (TradeType u)
    (PrepayId u) (CodeUrl u).

(** The caller's map once lines 135-136 have run. *)
Definition injected (m : myPayer) (param : Params) : Params :=
  Add (Add param "appid" (VStr (appId m))) "mch_id" (VStr (mchId m)).

(** The algorithm a request asks for (lines 139, 145-147). *)
Definition signType_of (param : Params) : string :=
  match param !! "sign_type" with
  | Some (VStr s) => s
  | _ => SignTypeMD5
  end.

(** [v] is the first element of [unifiedMustParam] that [p] lacks. *)
Definition first_missing (p : Params) (v : string) : Prop :=
  ∃ l1 l2, unifiedMustParam = l1 ++ v :: l2 ∧ p !! v = None ∧
           ∀ x, x ∈ l1 → is_Some (p !! x).

(** [k] belongs to the required or to the optional fields. *)
Definition allowed (k : string) : Prop :=
  k ∈ unifiedMustParam ∨ k ∈ unifiedOptionalParam.

(** The [sign_type] entry, when there is one, holds a string. *)
Definition sign_type_is_string (p : Params) : Prop :=
  p !! "sign_type" = None ∨ ∃ s, p !! "sign_type" = Some (VStr s).

(** The call gets as far as the required-field scan of line 156: the payer is
    configured, [trade_type] and [sign_type] hold strings, and a JSAPI request
    carries an [openid]. *)
Definition reaches_field_checks `{W : World} (m : myPayer) (p : Params) : Prop :=
  checkForPay m = None ∧ sign_type_is_string p ∧
  ∃ t, p !! "trade_type" = Some (VStr t) ∧ ¬ (t = "JSAPI" ∧ p !! "openid" = None).

(** Every validation step of lines 129-169 lets the call through. *)
Definition passes_validation `{W : World} (m : myPayer) (p : Params) : Prop :=
  reaches_field_checks m p ∧
  (∀ f, f ∈ unifiedMustParam → is_Some (injected m p !! f)) ∧
  (∀ k, is_Some (injected m p !! k) → allowed k).

(** The keys of the [switch] of [Param], in its order. *)
Definition wire_names : list string :=
  ["return_code"; "return_msg"; "appid"; "mch_id"; "device_info"; "nonce_str";
   "sign"; "result_code"; "err_code"; "err_code_des"; "trade_type"; "prepay_id";
   "code_url"].

(** The responses whose first sorted key is [sign] and that have another key:
    [sign] and [trade_type] are set and nothing else is. *)
Definition sign_sorts_first (u : unifiedResult) : Prop :=
  Sign u ≠ "" ∧ TradeType u ≠ "" ∧
  ReturnCode u = "" ∧ ReturnMsg u = "" ∧ Appid u = "" ∧ MchId u = "" ∧
  DeviceInfo u = "" ∧ NonceStr u = "" ∧ ResultCode u = "" ∧ ErrCode u = "" ∧
  ErrCodeDes u = "" ∧ PrepayId u = "" ∧ CodeUrl u = "".

(** [u] with its [Appid] and [MchId] fields set to [a] and [m]. *)
Definition with_ids (u : unifiedResult) (a m : string) : unifiedResult :=
  mkResult (ReturnCode u) (ReturnMsg u) a m (DeviceInfo u) (NonceStr u) (Sign u)
    (ResultCode u) (ErrCode u) (ErrCodeDes u) (TradeType u) (PrepayId u) (CodeUrl u).

(** ** Fixtures

    Concrete credentials, collaborators and inputs on which the statements
    below are exercised. *)

(** A world whose payer check answers [pay], whose transport answers [post]
    and whose decoder answers [dec]; a map is ranged over in the order of
    [map_to_list]. *)
Definition a_world (key : string) (pay : option error)
    (post : string + Response) (dec : option unifiedResult * option string) : World :=
  mkWorld (mkPayer "wx1" "m1" key) (λ _, pay) (λ _, inr "<xml></xml>")
    (λ _ _ _, post) (λ _, dec) (λ p, (map_to_list p).*1) (λ p, reflexivity _).

Definition payer1 : myPayer := mkPayer "wx1" "m1" "secret".

(** A response in which only [sign] and [trade_type] are set. *)
Definition only_trade_type (sign : string) : unifiedResult :=
  mkResult "" "" "" "" "" "" sign "" "" "" "T" "" "".

(** A successful response of the gateway, signed with [sign]. *)
Definition prepay_response (sign : string) : unifiedResult :=
  mkResult "SUCCESS" "OK" "wx1" "m1" "" "n1" sign "SUCCESS" "" "" "NATIVE" "wx201" "".

(** The request of the scenario of the spec, without [appid] and [mch_id]. *)
Definition native_order : Params :=
  list_to_map
    [("nonce_str", VStr "n1"); ("body", VStr "order"); ("out_trade_no", VStr "1001");
     ("total_fee", VStr "100"); ("spbill_create_ip", VStr "1.2.3.4");
     ("notify_url", VStr "https://x/y"); ("trade_type", VStr "NATIVE")].

Definition quiet_world : World :=
  a_world "secret" None (inl "down") (None, Some "bad").

(** A world whose payer check fails. *)
Definition unconfigured_world : World :=
  a_world "secret" (Some (ErrForeign "payer not configured")) (inl "down")
    (None, Some "bad").

(** A world whose gateway answers [r] with status 200. *)
Definition gateway_world (r : unifiedResult) : World :=
  a_world "secret" None (inr (mkResponse 200 "<xml></xml>")) (Some r, None).

(** [prepay_response] carrying its own MD5 signature under the key [secret]. *)
Definition signed_response : unifiedResult :=
  prepay_response "F696A954C831CFDF15AC6BB90A727FFD".

(** The one request [UnifiedOrder] posts in the fixture worlds. *)
Definition the_request : request :=
  mkRequest unifiedOrderUrl "application/xml;charset=utf-8" "<xml></xml>".

(** A JSAPI request that carries nothing else. *)
Definition jsapi_bare : Params := {[ "trade_type" := VStr "JSAPI" ]}.

(** [native_order] without [body] and with a field the gateway does not know. *)
Definition stray_order : Params := <["foo" := VStr "1"]> (delete "body" native_order).

(** [signed_response] with another [nonce_str] and the signature left as it
    was. *)
Definition tampered_response : unifiedResult :=
  mkResult "SUCCESS" "OK" "wx1" "m1" "" "n2" (Sign signed_response) "SUCCESS" ""
    "" "NATIVE" "wx201" "".

(** ** Tactics *)

(** Case analysis on membership in [named_fields]. *)
Ltac field_cases H :=
  repeat (apply elem_of_cons in H as [H|H]; [try discriminate H|]);
  try (by apply elem_of_nil in H).

(** * Properties *)

(** ** Sorted keys *)

Lemma elem_of_SortKey (p : Params) (k : string) :
  k ∈ SortKey p ↔ ∃ v, p !! k = Some v ∧ IsZero v = false.
Proof.
  unfold SortKey. rewrite merge_sort_Permutation, list_elem_of_fmap. split.
  - intros [[k' v] [-> Hkv]]. apply elem_of_map_to_list in Hkv.
    apply map_lookup_filter_Some in Hkv as [Hl Hz]. eauto.
  - intros (v & Hl & Hz). exists (k, v). split; [done|].
    apply elem_of_map_to_list, map_lookup_filter_Some. done.
Qed.

Lemma SortKey_sorted (p : Params) : StronglySorted String.le (SortKey p).
Proof. apply (StronglySorted_merge_sort _). Qed.

Lemma SortKey_NoDup (p : Params) : NoDup (SortKey p).
Proof.
  unfold SortKey. rewrite merge_sort_Permutation. apply NoDup_fst_map_to_list.
Qed.

(** A key that is present with a non-zero value and sorts before [sign] keeps
    [sign] from being the first sorted key. *)
Lemma SortKey_head_not_sign (p : Params) (k : string) :
  k ∈ SortKey p → k ≠ "sign" → String.le k "sign" →
  head (SortKey p) ≠ Some "sign".
Proof.
  intros Hk Hne Hle. pose proof (SortKey_sorted p) as Hs.
  destruct (SortKey p) as [|k0 ks]; [done|]. simpl. intros [= ->].
  apply elem_of_cons in Hk as [->|Hk]; [done|].
  apply StronglySorted_inv in Hs as [_ Hall].
  rewrite Forall_forall in Hall. specialize (Hall k Hk).
  apply Hne. by apply (anti_symm String.le).
Qed.

(** ** The map built by ListParam *)

Lemma reflect_fields_named (u : unifiedResult) :
  (λ f, (tagName f.1, f.2)) <$> reflect_fields u = named_fields u.
Proof. reflexivity. Qed.

Lemma named_fields_NoDup (u : unifiedResult) : NoDup (named_fields u).*1.
Proof. simpl. apply (bool_decide_unpack _). vm_compute. exact I. Qed.

Lemma foldl_ListParam_step_lookup (fs : list (string * string)) (p : Params) k v :
  NoDup (tagName <$> fs.*1) →
  (∀ f, f ∈ fs → p !! tagName f.1 = None) →
  foldl ListParam_step p fs !! k = Some v ↔
  p !! k = Some v ∨ ∃ f, f ∈ fs ∧ tagName f.1 = k ∧ f.2 ≠ "" ∧ v = VStr f.2.
Proof.
  revert p. induction fs as [|f fs IH]; intros p Hnd Hfresh; simpl.
  - split; [auto|]. intros [?|(f & Hf & _)]; [done|]. by apply elem_of_nil in Hf.
  - apply NoDup_cons in Hnd as [Hf Hnd].
    assert (Hstep : ∀ k' v', ListParam_step p f !! k' = Some v' ↔
              p !! k' = Some v' ∨ (tagName f.1 = k' ∧ f.2 ≠ "" ∧ v' = VStr f.2)).
    { intros k' v'. unfold ListParam_step. case_bool_decide as Hz.
      - split; [auto|]. intros [?|(_ & ? & _)]; done.
      - rewrite lookup_insert_Some. split.
        + intros [[<- <-]|[? ?]]; auto.
        + intros [Hp|(<- & _ & ->)]; [|auto]. right. split; [|done].
          intros <-. rewrite Hfresh in Hp; [done|]. apply elem_of_cons; auto. }
    rewrite IH; [|done|].
    + rewrite Hstep. split.
      * intros [[?|(? & ? & ?)]|(g & Hg & ?)]; [auto| |].
        -- right. exists f. split; [apply elem_of_cons; auto|done].
        -- right. exists g. split; [apply elem_of_cons; auto|done].
      * intros [?|(g & Hg & ? & ? & ?)]; [auto|].
        apply elem_of_cons in Hg as [->|Hg]; [auto|]. right. eauto.
    + intros g Hg. apply eq_None_not_Some. intros [v' Hv'].
      apply Hstep in Hv' as [Hv'|(Heq & _)].
      * rewrite Hfresh in Hv'; [done|]. apply elem_of_cons; auto.
      * apply Hf. rewrite Heq. apply list_elem_of_fmap. exists g.1. split; [done|].
        apply list_elem_of_fmap. eauto.
Qed.

Lemma ListParam_lookup (u : unifiedResult) (k : string) (v : value) :
  ListParam u !! k = Some v ↔
  ∃ s, (k, s) ∈ named_fields u ∧ s ≠ "" ∧ v = VStr s.
Proof.
  unfold ListParam. rewrite foldl_ListParam_step_lookup.
  - rewrite lookup_empty, <- reflect_fields_named. split.
    + intros [?|(f & Hf & <- & ? & ->)]; [done|]. exists f.2. split; [|done].
      apply list_elem_of_fmap. eauto.
    + intros (s & Hs & ? & ->). right.
      apply list_elem_of_fmap in Hs as (f & [= -> ->] & Hf). eauto.
  - pose proof (named_fields_NoDup u) as Hnd.
    rewrite <- reflect_fields_named, <- list_fmap_compose in Hnd.
    by rewrite <- list_fmap_compose.
  - intros. apply lookup_empty.
Qed.

(** Every value stored by [ListParam] is a non-empty string. *)
Lemma ListParam_values (u : unifiedResult) (k : string) (v : value) :
  ListParam u !! k = Some v → ∃ s, v = VStr s ∧ s ≠ "".
Proof. intros (s & _ & ? & ->)%ListParam_lookup. eauto. Qed.

Lemma ListParam_sign (u : unifiedResult) :
  ListParam u !! "sign" = if decide (Sign u = "") then None else Some (VStr (Sign u)).
Proof.
  case_decide as Hz.
  - apply eq_None_not_Some. intros [v Hv].
    apply ListParam_lookup in Hv as (s & Hs & Hne & _).
    field_cases Hs. congruence.
  - apply ListParam_lookup. exists (Sign u). split; [|done].
    unfold named_fields. set_solver.
Qed.

Lemma ListParam_return_code (u : unifiedResult) :
  ReturnCode u ≠ "" → ListParam u !! "return_code" = Some (VStr (ReturnCode u)).
Proof.
  intros Hz. apply ListParam_lookup. exists (ReturnCode u). split; [|done].
  unfold named_fields. set_solver.
Qed.

(** ** The string hashed by checkWxSign *)

Lemma append_cons (a : ascii) (s t : string) : String a s +:+ t = String a (s +:+ t).
Proof. reflexivity. Qed.

Lemma append_nil_r (s : string) : s +:+ "" = s.
Proof. induction s as [|a s IH]; [done|]. by rewrite append_cons, IH. Qed.

Lemma append_assoc (s t r : string) : (s +:+ t) +:+ r = s +:+ t +:+ r.
Proof. induction s as [|a s IH]; [done|]. by rewrite !append_cons, IH. Qed.

Lemma concat_amp (p : string) (ps : list string) :
  String.concat "&" (p :: ps) = p +:+ amp_join ps.
Proof.
  revert p. induction ps as [|q ps IH]; intros p.
  - simpl. by rewrite append_nil_r.
  - change (String.concat "&" (p :: q :: ps))
      with (p +:+ "&" +:+ String.concat "&" (q :: ps)).
    by rewrite (IH q).
Qed.

(** Past index 0 the loop puts a separator in front of every pair. *)
Lemma signStr_loop_S (param : Params) (i : nat) (keys : list string) (acc : string) :
  signStr_loop param (S i) keys acc =
  acc +:+ amp_join (pair_of param <$> filter (λ k, k ≠ "sign") keys).
Proof.
  revert i acc. induction keys as [|k keys IH]; intros i acc; simpl.
  - by rewrite append_nil_r.
  - rewrite filter_cons. case_bool_decide as Hk.
    + rewrite decide_False by tauto. apply IH.
    + rewrite decide_True by done. rewrite IH. simpl.
      unfold pair_of. by rewrite !append_assoc.
Qed.

(** The loop as a whole: the pairs joined by [&], with one more [&] in front
    exactly when [sign] is the first key and another key follows. *)
Lemma signStr_loop_0 (param : Params) (keys : list string) :
  signStr_loop param 0 keys "" =
  match keys with
  | k :: keys' =>
      if decide (k = "sign")
      then amp_join (pair_of param <$> filter (λ k, k ≠ "sign") keys')
      else String.concat "&" (pair_of param <$> filter (λ k, k ≠ "sign") keys)
  | [] => ""
  end.
Proof.
  destruct keys as [|k keys]; [done|]. simpl.
  case_bool_decide as Hk.
  - rewrite decide_True by done. by rewrite signStr_loop_S.
  - rewrite decide_False by done. rewrite signStr_loop_S, filter_cons.
    rewrite decide_True by done. by rewrite fmap_cons, concat_amp.
Qed.

Section with_world.
Context `{W : World}.

(** When [sign] is not the first sorted key, [checkWxSign] hashes the
    canonical string of the spec. *)
Lemma signStr_of_canonical (u : unifiedResult) :
  head (SortKey (ListParam u)) ≠ Some "sign" →
  signStr_of u = canonical (ListParam u) (apiKey defaultPayer).
Proof.
  intros Hhd. unfold signStr_of, canonical, pairs. f_equal.
  rewrite signStr_loop_0. destruct (SortKey (ListParam u)) as [|k ks]; [done|].
  rewrite decide_False; [done|]. intros ->. by apply Hhd.
Qed.

Lemma signStr_of_return_code (u : unifiedResult) :
  ReturnCode u ≠ "" →
  signStr_of u = canonical (ListParam u) (apiKey defaultPayer).
Proof.
  intros Hrc. apply signStr_of_canonical.
  apply (SortKey_head_not_sign _ "return_code"); [|done|by vm_compute].
  apply elem_of_SortKey. exists (VStr (ReturnCode u)).
  split; [by apply ListParam_return_code|]. simpl. by apply bool_decide_eq_false.
Qed.

End with_world.

(** ** Digests on known inputs *)

Example SignMd5_abc : Md5.SignMd5 "abc" = "900150983cd24fb0d6963f7d28e17f72".
Proof. by vm_compute. Qed.

Example sha256_abc :
  Bytes.hex (Sha256.digest (Bytes.of_string "abc"))
  = "ba7816bf8f01cfea414140de5dae2223b00361a396177a9cb410ff61f20015ad".
Proof. by vm_compute. Qed.

Example SignHMACSHA256_abc :
  Sha256.SignHMACSHA256 "abc" "secret"
  = "9946dad4e00e913fc8be8e5d3f7e110a4a9e832f83fb09c345285d78638d8a0e".
Proof. by vm_compute. Qed.

(** The scenario of the spec: the canonical string and the MD5 signature of
    the NATIVE order under the key [secret]. *)
Example native_order_signature :
  canonical (injected payer1 native_order) "secret"
  = "appid=wx1&body=order&mch_id=m1&nonce_str=n1&notify_url=https://x/y"
    +:+ "&out_trade_no=1001&spbill_create_ip=1.2.3.4&total_fee=100"
    +:+ "&trade_type=NATIVE&key=secret" ∧
  Params_Sign (W := quiet_world) (injected payer1 native_order) "MD5"
  = ("76973861DF8E101C8E5A46E732824FD9", None).
Proof. by vm_compute. Qed.

(** ** Digests are never empty *)

Lemma ToUpper_empty (s : string) : ToUpper s = "" → s = "".
Proof. by destruct s. Qed.

Lemma hex_empty (bs : list Z) : Bytes.hex bs = "" → bs = [].
Proof. by destruct bs. Qed.

Lemma SignMd5_nonempty (s : string) : Md5.SignMd5 s ≠ "".
Proof.
  unfold Md5.SignMd5, Md5.digest. intros Hs%hex_empty.
  by destruct (foldl Md5.block _ _) as [[[a b] c] d].
Qed.

Lemma sha256_round_length (st : list Z) (kw : Z * Z) :
  length (Sha256.round st kw) = length st.
Proof.
  unfold Sha256.round.
  do 8 (destruct st as [|? st]; [done|]). by destruct st.
Qed.

Lemma sha256_block_length (st blk : list Z) :
  length (Sha256.block st blk) = length st.
Proof.
  unfold Sha256.block. rewrite length_zip_with.
  assert (Hf : ∀ l s, length (foldl Sha256.round s l) = length s).
  { induction l as [|x l IH]; intros s; [done|]. simpl.
    by rewrite IH, sha256_round_length. }
  rewrite Hf. lia.
Qed.

Lemma sha256_digest_nonempty (msg : list Z) : Sha256.digest msg ≠ [].
Proof.
  unfold Sha256.digest.
  assert (Hf : ∀ l s, length (foldl Sha256.block s l) = length s).
  { induction l as [|x l IH]; intros s; [done|]. simpl.
    by rewrite IH, sha256_block_length. }
  specialize (Hf (Bytes.chunks (length (Sha256.pad msg) / 64) 64 (Sha256.pad msg))
                 Sha256.H0).
  destruct (foldl Sha256.block _ _) as [|h t]; [done|]. done.
Qed.

Lemma SignHMACSHA256_nonempty (s key : string) : Sha256.SignHMACSHA256 s key ≠ "".
Proof.
  unfold Sha256.SignHMACSHA256, Sha256.hmac. intros Hs%hex_empty.
  by apply sha256_digest_nonempty in Hs.
Qed.

Lemma digest_nonempty (signType signStr key : string) :
  signType = SignTypeMD5 ∨ signType = SignType256 →
  digest signType signStr key ≠ "".
Proof.
  unfold digest. intros [-> | ->] Hd%ToUpper_empty.
  - by apply SignMd5_nonempty in Hd.
  - by apply SignHMACSHA256_nonempty in Hd.
Qed.

(** ** checkWxSign *)

Section checkWxSign_facts.
Context `{W : World}.

Lemma Get_sign (u : unifiedResult) :
  Get (ListParam u) "sign" = if decide (Sign u = "") then None else Some (VStr (Sign u)).
Proof. apply ListParam_sign. Qed.

Lemma supported_effective (signType : string) :
  supported signType →
  effective signType = SignTypeMD5 ∨ effective signType = SignType256.
Proof.
  unfold effective. intros [->|[->| ->]]; [by left|by left|by right].
Qed.

Lemma checkWxSign_unsupported (u : unifiedResult) (signType : string) :
  ¬ supported signType →
  checkWxSign u signType = Returns (false, Some ErrSignType).
Proof.
  intros Hns. unfold checkWxSign, supported in *.
  rewrite (bool_decide_eq_false_2 (signType = "")) by tauto.
  rewrite !bool_decide_eq_true_2; [done|tauto|tauto].
Qed.

Lemma checkWxSign_supported (u : unifiedResult) (signType : string) :
  supported signType →
  checkWxSign u signType =
  if decide (Sign u = "") then Returns (false, Some ErrNoSign)
  else Returns (bool_decide (wxSign u signType = Sign u), None).
Proof.
  intros Hs. apply supported_effective in Hs. unfold checkWxSign, wxSign.
  fold (effective signType).
  assert (bool_decide (effective signType ≠ SignTypeMD5)
          && bool_decide (effective signType ≠ SignType256) = false) as ->.
  { destruct Hs as [-> | ->]; [done|].
    apply andb_false_iff. right. by apply bool_decide_eq_false_2; intros []. }
  rewrite Get_sign. by case_decide.
Qed.

End checkWxSign_facts.

(** ** The validation steps of UnifiedOrder *)

Lemma HaveInArray_spec (arr : list string) (x : string) :
  HaveInArray arr x = true ↔ x ∈ arr.
Proof.
  unfold HaveInArray. rewrite existsb_exists. split.
  - intros (y & Hy & ->%String.eqb_eq). by apply list_elem_of_In.
  - intros Hx. exists x. split; [by apply list_elem_of_In|apply String.eqb_refl].
Qed.

Lemma find_first {A} (f : A → bool) (l : list A) (v : A) :
  find f l = Some v ↔
  ∃ l1 l2, l = l1 ++ v :: l2 ∧ f v = true ∧ ∀ x, x ∈ l1 → f x = false.
Proof.
  induction l as [|a l IH]; simpl.
  - split; [done|]. intros (l1 & l2 & Hl & _). by destruct l1.
  - destruct (f a) eqn:Hfa.
    + split.
      * intros [= <-]. exists [], l. split_and!; [done..|].
        intros x Hx. by apply elem_of_nil in Hx.
      * intros ([|b l1] & l2 & Hl & Hv & Hpre); simplify_eq/=; [done|].
        rewrite Hpre in Hfa; [done|]. apply elem_of_cons; auto.
    + rewrite IH. split.
      * intros (l1 & l2 & -> & Hv & Hpre). exists (a :: l1), l2.
        split_and!; [done..|]. intros x [->|Hx]%elem_of_cons; auto.
      * intros ([|b l1] & l2 & Hl & Hv & Hpre); simplify_eq/=; [congruence|].
        exists l1, l2. split_and!; [done..|].
        intros x Hx. apply Hpre, elem_of_cons. auto.
Qed.

Lemma find_nothing {A} (f : A → bool) (l : list A) :
  find f l = None ↔ ∀ x, x ∈ l → f x = false.
Proof.
  induction l as [|a l IH]; simpl.
  - split; [|done]. intros _ x Hx. by apply elem_of_nil in Hx.
  - destruct (f a) eqn:Hfa.
    + split; [done|]. intros Hall. rewrite Hall in Hfa; [done|]. apply elem_of_cons; auto.
    + rewrite IH. split.
      * intros Hall x [->|Hx]%elem_of_cons; auto.
      * intros Hall x Hx. apply Hall, elem_of_cons. auto.
Qed.

Lemma sign_not_allowed : ¬ allowed "sign".
Proof. unfold allowed. apply (bool_decide_unpack _). by vm_compute. Qed.

Lemma must_test (p : Params) (v : string) :
  v ∈ unifiedMustParam →
  negb (bool_decide (v = "sign")) && bool_decide (p !! v = None) = true ↔ p !! v = None.
Proof.
  intros Hv. rewrite (bool_decide_eq_false_2 (v = "sign")).
  - simpl. apply bool_decide_eq_true.
  - intros ->. apply sign_not_allowed. by left.
Qed.

Lemma missing_must_Some (p : Params) (v : string) :
  missing_must p = Some v ↔ first_missing p v.
Proof.
  unfold missing_must, first_missing. rewrite find_first.
  split; intros (l1 & l2 & Hl & Hv & Hpre); exists l1, l2; (split; [done|]).
  - split.
    + apply (must_test p v); [|done]. rewrite Hl. set_solver.
    + intros x Hx. specialize (Hpre x Hx).
      apply not_eq_None_Some. intros Hn.
      apply (must_test p x) in Hn; [congruence|]. rewrite Hl. set_solver.
  - split.
    + apply must_test; [|done]. rewrite Hl. set_solver.
    + intros x Hx. apply not_true_is_false. intros Ht.
      apply must_test in Ht; [|rewrite Hl; set_solver].
      destruct (Hpre x Hx) as [? ?]. congruence.
Qed.

Lemma missing_must_None (p : Params) :
  missing_must p = None ↔ ∀ f, f ∈ unifiedMustParam → is_Some (p !! f).
Proof.
  unfold missing_must. rewrite find_nothing. split; intros Hall x Hx.
  - apply not_eq_None_Some. intros Hn. apply (must_test p x Hx) in Hn.
    rewrite Hall in Hn; done.
  - apply not_true_is_false. intros Ht. apply (must_test p x Hx) in Ht.
    destruct (Hall x Hx) as [? ?]. congruence.
Qed.

Lemma first_missing_unique (p : Params) (v w : string) :
  first_missing p v → first_missing p w → v = w.
Proof. rewrite <- !missing_must_Some. congruence. Qed.

Lemma first_missing_exists (p : Params) (f : string) :
  f ∈ unifiedMustParam → p !! f = None → ∃ v, first_missing p v.
Proof.
  intros Hf Hn. destruct (missing_must p) as [v|] eqn:Hm.
  - exists v. by apply missing_must_Some.
  - rewrite missing_must_None in Hm. destruct (Hm f Hf) as [? ?]. congruence.
Qed.

Section validation.
Context `{W : World}.

Lemma elem_of_range (p : Params) (k : string) : k ∈ range p ↔ is_Some (p !! k).
Proof.
  rewrite range_keys, list_elem_of_fmap. split.
  - intros ([k' v] & -> & Hkv%elem_of_map_to_list). eauto.
  - intros [v Hv]. exists (k, v). split; [done|]. by apply elem_of_map_to_list.
Qed.

Lemma unneeded_test (k : string) :
  negb (HaveInArray unifiedMustParam k) && negb (HaveInArray unifiedOptionalParam k) = true
  ↔ ¬ allowed k.
Proof.
  unfold allowed. rewrite andb_true_iff, !negb_true_iff.
  rewrite <- !not_true_iff_false, !HaveInArray_spec. tauto.
Qed.

Lemma unneeded_Some (p : Params) (k : string) :
  unneeded p = Some k → is_Some (p !! k) ∧ ¬ allowed k.
Proof.
  unfold unneeded. intros (l1 & l2 & Hl & Ht & _)%find_first. split.
  - apply elem_of_range. rewrite Hl. set_solver.
  - by apply unneeded_test.
Qed.

Lemma unneeded_None (p : Params) :
  unneeded p = None ↔ ∀ k, is_Some (p !! k) → allowed k.
Proof.
  unfold unneeded. rewrite find_nothing. split.
  - intros Hall k Hk%elem_of_range. specialize (Hall k Hk).
    destruct (decide (allowed k)) as [|Hna]; [done|].
    apply unneeded_test in Hna. congruence.
  - intros Hall k Hk%elem_of_range. apply not_true_is_false.
    intros Ht%unneeded_test. by apply Ht, Hall.
Qed.

Lemma injected_appid (m : myPayer) (p : Params) :
  injected m p !! "appid" = Some (VStr (appId m)).
Proof. unfold injected, Add. by rewrite lookup_insert_ne, lookup_insert_eq. Qed.

Lemma injected_mch_id (m : myPayer) (p : Params) :
  injected m p !! "mch_id" = Some (VStr (mchId m)).
Proof. unfold injected, Add. by rewrite lookup_insert_eq. Qed.

Lemma injected_other (m : myPayer) (p : Params) (k : string) :
  k ≠ "appid" → k ≠ "mch_id" → injected m p !! k = p !! k.
Proof. intros. unfold injected, Add. by rewrite !lookup_insert_ne. Qed.

(** From line 156 on, for a call that gets this far. *)
Lemma UnifiedOrder_field_checks (m : myPayer) (p : Params) :
  reaches_field_checks m p →
  UnifiedOrder m (Some p) =
  match missing_must (injected m p) with
  | Some v =>
      mkRun (Some (injected m p)) [] (Returns (None, Some (errors_New ("need " +:+ v))))
  | None =>
      match unneeded (injected m p) with
      | Some key =>
          mkRun (Some (injected m p)) []
            (Returns (None, Some (errors_New ("no need " +:+ key +:+ " param"))))
      | None => sign_and_send (injected m p) (signType_of p)
      end
  end.
Proof.
  intros (Hpay & Hst & t & Ht & Hopen). unfold UnifiedOrder. rewrite Hpay.
  fold (injected m p). rewrite !injected_other by done. rewrite Ht. simpl.
  assert (match p !! "sign_type" with
          | Some t0 => assert_string t0
          | None => Some SignTypeMD5
          end = Some (signType_of p)) as ->.
  { unfold signType_of. by destruct Hst as [-> | [s ->]]. }
  assert (bool_decide (t = "JSAPI") && bool_decide (p !! "openid" = None) = false) as ->.
  { apply not_true_is_false. rewrite andb_true_iff, !bool_decide_eq_true. tauto. }
  done.
Qed.

Lemma UnifiedOrder_passes (m : myPayer) (p : Params) :
  passes_validation m p →
  UnifiedOrder m (Some p) = sign_and_send (injected m p) (signType_of p).
Proof.
  intros (Hr & Hmust & Hall). rewrite UnifiedOrder_field_checks by done.
  apply missing_must_None in Hmust as ->. by apply unneeded_None in Hall as ->.
Qed.

(** A call either passes every validation step or ends before anything is
    signed or sent, with an error or a panic; in the latter case a configured
    payer has still been injected in the caller's map. *)
Lemma UnifiedOrder_cases (m : myPayer) (param : option Params) :
  (∃ p, param = Some p ∧ passes_validation m p) ∨
  (posted (UnifiedOrder m param) = [] ∧
   (returned (UnifiedOrder m param) = Panics ∨
    ∃ err, returned (UnifiedOrder m param) = Returns (None, Some err)) ∧
   (∀ p, param = Some p → checkForPay m = None →
      caller_param (UnifiedOrder m param) = Some (injected m p))).
Proof.
  unfold UnifiedOrder. destruct param as [p|]; [|right; split_and!; eauto; done].
  destruct (checkForPay m) as [err|] eqn:Hpay;
    [right; split_and!; eauto; congruence|].
  fold (injected m p). rewrite !injected_other by done.
  assert (Hinj : ∀ p0, Some p = Some p0 → None = None (A := error) →
            Some (injected m p) = Some (injected m p0)) by (by intros ? [= <-]).
  destruct (p !! "trade_type") as [[t|n]|] eqn:Ht; [|right; split_and!; eauto..]. simpl.
  destruct (p !! "sign_type") as [[s|n]|] eqn:Hs; simpl; [|right; split_and!; eauto|].
  all: destruct (bool_decide (t = "JSAPI") && bool_decide (p !! "openid" = None)) eqn:Ho;
    [right; split_and!; eauto|].
  all: destruct (missing_must (injected m p)) as [v|] eqn:Hm; [right; split_and!; eauto|].
  all: destruct (unneeded (injected m p)) as [k|] eqn:Hu; [right; split_and!; eauto|].
  all: left; exists p; split; [done|].
  all: apply not_true_iff_false in Ho; rewrite andb_true_iff, !bool_decide_eq_true in Ho.
  all: split; [|split; [by apply missing_must_None|by apply unneeded_None]].
  all: split; [done|]. all: split; [unfold sign_type_is_string; eauto|].
  all: exists t; split; [done|tauto].
Qed.

End validation.

(** ** Posting and the gates *)

Section gates_facts.
Context `{W : World}.

Lemma postUnifiedOrder_error (url contentType body : string)
    (x : option unifiedResult) (err : error) :
  postUnifiedOrder url contentType body = (x, Some err) →
  err ≠ ErrCheckSign ∧ err ≠ ErrOpenId.
Proof.
  unfold postUnifiedOrder. destruct (http_Post url contentType body) as [msg|response].
  - by intros [= <- <-].
  - case_bool_decide; [by intros [= <- <-]|].
    destruct (xml_Decode (Body response)) as [result [msg|]]; by intros [= <- <-].
Qed.

Lemma gates_return_code (signType : string) (r : unifiedResult) :
  ReturnCode r ≠ "SUCCESS" →
  gates signType r = Returns (None, Some (errors_New (ReturnMsg r))).
Proof. intros Hrc. unfold gates. by rewrite bool_decide_eq_true_2. Qed.

Lemma gates_result_code (signType : string) (r : unifiedResult) :
  ReturnCode r = "SUCCESS" → ResultCode r ≠ "SUCCESS" →
  gates signType r = Returns (None, Some (errors_New (ErrCodeDes r))).
Proof.
  intros Hrc Hbc. unfold gates.
  rewrite bool_decide_eq_false_2 by (by intros []).
  by rewrite bool_decide_eq_true_2.
Qed.

Lemma gates_signature (signType : string) (r : unifiedResult) :
  ReturnCode r = "SUCCESS" → ResultCode r = "SUCCESS" →
  signType = SignTypeMD5 ∨ signType = SignType256 →
  gates signType r =
  if decide (Sign r = recomputed r signType) then Returns (Some r, None)
  else Returns (None, Some ErrCheckSign).
Proof.
  intros Hrc Hbc Hst. unfold gates.
  rewrite !bool_decide_eq_false_2 by (by intros []).
  assert (Hs : supported signType) by (unfold supported; tauto).
  rewrite (checkWxSign_supported r signType Hs).
  assert (wxSign r signType = recomputed r signType) as ->.
  { unfold wxSign, recomputed. rewrite signStr_of_return_code by (by rewrite Hrc).
    f_equal. unfold effective. by destruct Hst as [-> | ->]. }
  case_decide as Hz.
  - simpl. rewrite decide_False; [done|]. rewrite Hz. intros Heq.
    symmetry in Heq. by apply digest_nonempty in Heq.
  - simpl. case_bool_decide as Heq.
    + rewrite decide_True by done. done.
    + rewrite decide_False by congruence. done.
Qed.

Lemma gates_not_openid (signType : string) (r : unifiedResult) :
  gates signType r ≠ Returns (None, Some ErrOpenId).
Proof.
  unfold gates. repeat case_bool_decide; try done.
  destruct (checkWxSign r signType) as [[ok err]|]; [|done].
  by destruct (negb ok || bool_decide (err ≠ None)).
Qed.

Lemma Params_Sign_cases (p : Params) (signType : string) :
  (signType = SignTypeMD5 ∨ signType = SignType256) ∧
  Params_Sign p signType
  = (digest signType (canonical p (apiKey defaultPayer)) (apiKey defaultPayer), None)
  ∨ ¬ (signType = SignTypeMD5 ∨ signType = SignType256) ∧
    Params_Sign p signType = ("", Some ErrSignType).
Proof. unfold Params_Sign. case_bool_decide; [left|right]; done. Qed.

(** What a posted request tells about the run. *)
Lemma sign_and_send_posted (p : Params) (signType : string) (req : request) :
  posted (sign_and_send p signType) = [req] →
  (signType = SignTypeMD5 ∨ signType = SignType256) ∧
  req_url req = unifiedOrderUrl ∧
  req_contentType req = "application/xml;charset=utf-8" ∧
  returned (sign_and_send p signType) =
  match postUnifiedOrder (req_url req) (req_contentType req) (req_body req) with
  | (_, Some err) => Returns (None, Some err)
  | (None, None) => Panics
  | (Some result, None) => gates signType result
  end.
Proof.
  unfold sign_and_send.
  destruct (Params_Sign_cases p signType) as [[Hst ->]|[_ ->]]; [|done].
  destruct (MarshalXML _) as [msg|reader]; [done|].
  destruct (postUnifiedOrder _ _ reader) as [[result|] [err|]] eqn:Hpost;
    intros [= <-]; simpl; by rewrite Hpost.
Qed.

Lemma sign_and_send_posted_cases (p : Params) (signType : string) :
  posted (sign_and_send p signType) = [] ∨ ∃ req, posted (sign_and_send p signType) = [req].
Proof.
  unfold sign_and_send. destruct (Params_Sign p signType) as [sign [err|]]; [auto|].
  destruct (MarshalXML _) as [msg|reader]; [auto|].
  destruct (postUnifiedOrder _ _ reader) as [[result|] [err|]]; eauto.
Qed.

Lemma sign_and_send_caller_param (p : Params) (signType : string) :
  caller_param (sign_and_send p signType) = Some p ∨
  ∃ s, caller_param (sign_and_send p signType) = Some (<["sign" := VStr s]> p).
Proof.
  unfold sign_and_send. destruct (Params_Sign p signType) as [sign [err|]]; [auto|].
  right. exists sign.
  destruct (MarshalXML _) as [msg|reader]; [done|].
  by destruct (postUnifiedOrder _ _ reader) as [[result|] [err|]].
Qed.

Lemma sign_and_send_not_openid (p : Params) (signType : string) :
  returned (sign_and_send p signType) ≠ Returns (None, Some ErrOpenId).
Proof.
  unfold sign_and_send.
  destruct (Params_Sign_cases p signType) as [[Hst ->]|[_ ->]]; [|done].
  destruct (MarshalXML _) as [msg|reader]; [done|].
  destruct (postUnifiedOrder _ _ reader) as [[result|] [err|]] eqn:Hpost; simpl;
    try done; try apply gates_not_openid.
  all: apply postUnifiedOrder_error in Hpost as [_ Hne]; congruence.
Qed.

End gates_facts.

(** ** Signing, then verifying *)

Lemma StronglySorted_filter {A} (R : relation A) (P : A → Prop)
    `{∀ x, Decision (P x)} (l : list A) :
  StronglySorted R l → StronglySorted R (filter P l).
Proof.
  induction 1 as [|x l Hl IH Hall]; [constructor|].
  rewrite filter_cons. case_decide; [|done].
  constructor; [done|]. apply Forall_forall. intros y [_ Hy]%list_elem_of_filter.
  rewrite Forall_forall in Hall. by apply Hall.
Qed.

(** The pairs that are signed depend on the entries other than [sign] only. *)
Lemma pairs_ext (p q : Params) :
  (∀ k, k ≠ "sign" → p !! k = q !! k) → pairs p = pairs q.
Proof.
  intros Hpq. unfold pairs.
  assert (filter (λ k, k ≠ "sign") (SortKey p) = filter (λ k, k ≠ "sign") (SortKey q))
    as <-.
  { apply (StronglySorted_unique String.le).
    - apply StronglySorted_filter, SortKey_sorted.
    - apply StronglySorted_filter, SortKey_sorted.
    - apply NoDup_Permutation; [apply NoDup_filter, SortKey_NoDup..|].
      intros k. rewrite !list_elem_of_filter, !elem_of_SortKey.
      split; intros [Hk Hv]; (split; [done|]).
      + by rewrite <- Hpq.
      + by rewrite Hpq. }
  apply list_fmap_ext. intros i k Hk%list_elem_of_lookup_2.
  apply list_elem_of_filter in Hk as [Hk _]. unfold pair_of, Get. by rewrite Hpq.
Qed.

Lemma ListParam_with_Sign (u : unifiedResult) (s k : string) :
  k ≠ "sign" → ListParam (with_Sign u s) !! k = ListParam u !! k.
Proof.
  intros Hk. apply option_eq. intros v. rewrite !ListParam_lookup.
  unfold named_fields, with_Sign; simpl.
  split; intros (s' & Hs' & ? & ->); exists s'; (split; [|done]);
    rewrite !elem_of_cons in Hs'; rewrite !elem_of_cons;
    destruct Hs' as [?|[?|[?|[?|[?|[?|[[= -> ->]|?]]]]]]]; tauto.
Qed.

(** C4.  For every response field-set whose [return_code] is set, which is
    the case of every response [checkWxSign] is called on (line 193 lies
    behind the gate of line 186), and for each of the two algorithms: signing
    the set with [Params.Sign], storing the result under [sign] and verifying
    the set with the same algorithm and key gives a match, [true] with no
    error.  The key [return_code] sorts before [sign], so both sides hash the
    same string. *)
Theorem sign_then_verify `{W : World} (u : unifiedResult) (signType : string) :
  ReturnCode u ≠ "" → signType = SignTypeMD5 ∨ signType = SignType256 →
  ∃ s, Params_Sign (ListParam u) signType = (s, None) ∧
       checkWxSign (with_Sign u s) signType = Returns (true, None).
Proof.
  intros Hrc Hst.
  destruct (Params_Sign_cases (ListParam u) signType) as [[_ Hs]|[Hn _]]; [|done].
  eexists. split; [exact Hs|].
  rewrite checkWxSign_supported by (unfold supported; tauto).
  simpl. rewrite decide_False by (by apply digest_nonempty).
  do 2 f_equal. apply bool_decide_eq_true_2.
  unfold wxSign. rewrite signStr_of_return_code by done.
  unfold effective. rewrite bool_decide_eq_false_2 by (by destruct Hst as [-> | ->]).
  unfold canonical. do 3 f_equal. apply pairs_ext. intros k Hk.
  by apply ListParam_with_Sign.
Qed.

Lemma sign_then_verify_witness :
  ReturnCode (prepay_response "") ≠ "" ∧
  Params_Sign (W := quiet_world) (ListParam (prepay_response "")) "MD5"
    = ("F696A954C831CFDF15AC6BB90A727FFD", None) ∧
  checkWxSign (W := quiet_world)
    (with_Sign (prepay_response "") "F696A954C831CFDF15AC6BB90A727FFD") "MD5"
    = Returns (true, None).
Proof.
  assert (Hrc : ReturnCode (prepay_response "") ≠ "") by discriminate.
  split; [exact Hrc|].
  destruct (sign_then_verify (W := quiet_world) (prepay_response "") "MD5" Hrc
              (or_introl eq_refl)) as (s & Hs & Hok).
  assert (Hv : Params_Sign (W := quiet_world) (ListParam (prepay_response "")) "MD5"
               = ("F696A954C831CFDF15AC6BB90A727FFD", None)) by (by vm_compute).
  split; [exact Hv|].
  rewrite Hv in Hs. injection Hs as <-. exact Hok.
Defined.

(** ** Claims about the response gates *)

Section response_claims.
Context `{W : World}.

Lemma UnifiedOrder_posted (m : myPayer) (p : Params) (req : request) :
  posted (UnifiedOrder m (Some p)) = [req] →
  (signType_of p = SignTypeMD5 ∨ signType_of p = SignType256) ∧
  returned (UnifiedOrder m (Some p)) =
  match postUnifiedOrder (req_url req) (req_contentType req) (req_body req) with
  | (_, Some err) => Returns (None, Some err)
  | (None, None) => Panics
  | (Some result, None) => gates (signType_of p) result
  end.
Proof.
  intros Hp. destruct (UnifiedOrder_cases m (Some p)) as [(p' & [= <-] & Hv)|[Hn _]].
  - rewrite (UnifiedOrder_passes m p Hv) in *.
    by apply sign_and_send_posted in Hp as (? & _ & _ & ?).
  - congruence.
Qed.

End response_claims.

(** C3.  The string hashed during signature verification is the canonical
    one: the pairs [key=value] of the sorted non-empty keys other than [sign],
    joined by [&] with nothing before the first pair, then [&key=] and the
    shared secret.  This holds for every response whose [return_code] is set,
    since that key sorts before [sign]; and verification runs on no other
    response: for every decoded answer to a posted request, either the call
    ends at the gate of line 186 with the [return_msg] of the response, or
    [return_code] is SUCCESS and the hashed string is the canonical one. *)
Theorem checkWxSign_hashes_canonical `{W : World} :
  (∀ u, ReturnCode u ≠ "" →
     signStr_of u
     = String.concat "&"
         (pair_of (ListParam u) <$> filter (λ k, k ≠ "sign") (SortKey (ListParam u)))
       +:+ "&key=" +:+ apiKey defaultPayer) ∧
  (∀ m p req u,
     posted (UnifiedOrder m (Some p)) = [req] →
     postUnifiedOrder (req_url req) (req_contentType req) (req_body req) = (Some u, None) →
     ReturnCode u ≠ "SUCCESS" ∧
     returned (UnifiedOrder m (Some p)) = Returns (None, Some (errors_New (ReturnMsg u)))
     ∨ ReturnCode u = "SUCCESS" ∧
       signStr_of u = canonical (ListParam u) (apiKey defaultPayer)).
Proof.
  split.
  - intros u Hrc. by rewrite signStr_of_return_code.
  - intros m p req u Hp Hpost.
    apply UnifiedOrder_posted in Hp as [_ ->]. rewrite Hpost.
    destruct (decide (ReturnCode u = "SUCCESS")) as [Hrc|Hrc].
    + right. split; [done|]. apply signStr_of_return_code. by rewrite Hrc.
    + left. split; [done|]. by apply gates_return_code.
Qed.

Lemma checkWxSign_hashes_canonical_witness :
  ReturnCode signed_response ≠ "" ∧
  signStr_of (W := quiet_world) signed_response
  = "appid=wx1&mch_id=m1&nonce_str=n1&prepay_id=wx201&result_code=SUCCESS"
    +:+ "&return_code=SUCCESS&return_msg=OK&trade_type=NATIVE&key=secret" ∧
  posted (UnifiedOrder (W := gateway_world signed_response) payer1 (Some native_order))
    = [the_request] ∧
  signStr_of (W := gateway_world signed_response) signed_response
  = canonical (ListParam signed_response) "secret".
Proof.
  assert (Hrc : ReturnCode signed_response ≠ "") by discriminate.
  assert (Hp : posted (UnifiedOrder (W := gateway_world signed_response) payer1
                         (Some native_order)) = [the_request]) by (by vm_compute).
  split; [exact Hrc|]. split.
  - refine (eq_trans (proj1 (checkWxSign_hashes_canonical (W := quiet_world))
                        signed_response Hrc) _).
    by vm_compute.
  - split; [exact Hp|].
    destruct (proj2 (checkWxSign_hashes_canonical (W := gateway_world signed_response))
                payer1 native_order the_request signed_response Hp eq_refl)
      as [[Hne _]|[_ Hc]]; [|exact Hc].
    exfalso. apply Hne. reflexivity.
Defined.

(** C5.  [checkWxSign] fails with the missing-signature error when the
    response carries no [sign] field at all, and otherwise returns, with no
    error, whether the recomputed signature equals the stored one: a mismatch
    is the verdict [false], not a failure.  This holds under every algorithm
    the function supports (MD5, HMAC-SHA256, or the empty string, which stands
    for MD5), and so on every call [UnifiedOrder] makes on a decoded
    response. *)
Theorem checkWxSign_verdict `{W : World} (u : unifiedResult) :
  (Get (ListParam u) "sign" = None ∨ ∃ s, Get (ListParam u) "sign" = Some (VStr s)) ∧
  (∀ signType, supported signType →
     (Get (ListParam u) "sign" = None →
      checkWxSign u signType = Returns (false, Some ErrNoSign)) ∧
     (∀ s, Get (ListParam u) "sign" = Some (VStr s) →
      checkWxSign u signType = Returns (bool_decide (wxSign u signType = s), None))) ∧
  (∀ m p req,
     posted (UnifiedOrder m (Some p)) = [req] →
     postUnifiedOrder (req_url req) (req_contentType req) (req_body req) = (Some u, None) →
     (Get (ListParam u) "sign" = None →
      checkWxSign u (signType_of p) = Returns (false, Some ErrNoSign)) ∧
     (∀ s, Get (ListParam u) "sign" = Some (VStr s) →
      checkWxSign u (signType_of p)
      = Returns (bool_decide (wxSign u (signType_of p) = s), None))).
Proof.
  assert (Hv : ∀ signType, supported signType →
            (Get (ListParam u) "sign" = None →
             checkWxSign u signType = Returns (false, Some ErrNoSign)) ∧
            (∀ s, Get (ListParam u) "sign" = Some (VStr s) →
             checkWxSign u signType
             = Returns (bool_decide (wxSign u signType = s), None))).
  { intros signType Hs. rewrite (checkWxSign_supported u signType Hs), Get_sign.
    case_decide as Hz; split; try done. by intros s [= <-]. }
  split_and!.
  - rewrite Get_sign. case_decide; eauto.
  - done.
  - intros m p req Hp _. apply Hv.
    apply UnifiedOrder_posted in Hp as [Hst _]. unfold supported. tauto.
Qed.

Lemma checkWxSign_verdict_witness :
  supported "HMAC-SHA256" ∧
  checkWxSign (W := quiet_world) (prepay_response "") "HMAC-SHA256"
    = Returns (false, Some ErrNoSign) ∧
  posted (UnifiedOrder (W := gateway_world (prepay_response "ABC")) payer1
            (Some native_order)) = [the_request] ∧
  checkWxSign (W := gateway_world (prepay_response "ABC")) (prepay_response "ABC")
    (signType_of native_order) = Returns (false, None).
Proof.
  assert (Hs : supported "HMAC-SHA256") by (right; right; reflexivity).
  assert (Hp : posted (UnifiedOrder (W := gateway_world (prepay_response "ABC")) payer1
                         (Some native_order)) = [the_request]) by (by vm_compute).
  split; [exact Hs|]. split.
  - apply (proj1 (proj2 (checkWxSign_verdict (W := quiet_world) (prepay_response "")))
             "HMAC-SHA256" Hs).
    reflexivity.
  - split; [exact Hp|].
    refine (eq_trans
              (proj2 (proj2 (proj2 (checkWxSign_verdict
                                      (W := gateway_world (prepay_response "ABC"))
                                      (prepay_response "ABC")))
                        payer1 native_order the_request Hp eq_refl) "ABC" eq_refl) _).
    by vm_compute.
Defined.

(** C10.  A response whose [Sign] field is the empty string has no [sign]
    entry in the map built by [ListParam].  [checkWxSign] then returns the
    missing-signature error under every algorithm it supports, which covers
    the algorithm of every call made by [UnifiedOrder] on a decoded response;
    under no algorithm does it compare the recomputed signature with the
    empty string: it always returns [false] together with an error. *)
Theorem empty_Sign_is_missing `{W : World} (u : unifiedResult) :
  Sign u = "" →
  Get (ListParam u) "sign" = None ∧
  (∀ signType, supported signType →
     checkWxSign u signType = Returns (false, Some ErrNoSign)) ∧
  (∀ signType, ∃ err, checkWxSign u signType = Returns (false, Some err)) ∧
  (∀ m p req,
     posted (UnifiedOrder m (Some p)) = [req] →
     postUnifiedOrder (req_url req) (req_contentType req) (req_body req) = (Some u, None) →
     checkWxSign u (signType_of p) = Returns (false, Some ErrNoSign)).
Proof.
  intros Hz.
  assert (Hs : ∀ signType, supported signType →
            checkWxSign u signType = Returns (false, Some ErrNoSign)).
  { intros signType Hs. rewrite checkWxSign_supported by done. by rewrite decide_True. }
  split_and!; [|done| |].
  - rewrite Get_sign. by rewrite decide_True.
  - intros signType. destruct (decide (supported signType)) as [Hsup|Hsup].
    + exists ErrNoSign. by apply Hs.
    + exists ErrSignType. by apply checkWxSign_unsupported.
  - intros m p req Hp _. apply Hs.
    apply UnifiedOrder_posted in Hp as [Hst _]. unfold supported. tauto.
Qed.

Lemma empty_Sign_is_missing_witness :
  Sign (prepay_response "") = "" ∧
  Get (ListParam (prepay_response "")) "sign" = None ∧
  checkWxSign (W := quiet_world) (prepay_response "") "HMAC-SHA256"
    = Returns (false, Some ErrNoSign) ∧
  checkWxSign (W := gateway_world (prepay_response "")) (prepay_response "")
    (signType_of native_order) = Returns (false, Some ErrNoSign).
Proof.
  assert (Hz : Sign (prepay_response "") = "") by reflexivity.
  split; [exact Hz|].
  destruct (empty_Sign_is_missing (W := quiet_world) (prepay_response "") Hz)
    as (Hg & Hs & _).
  split; [exact Hg|]. split; [apply Hs; right; right; reflexivity|].
  destruct (empty_Sign_is_missing (W := gateway_world (prepay_response ""))
              (prepay_response "") Hz) as (_ & _ & _ & Hrun).
  apply (Hrun payer1 native_order the_request); by vm_compute.
Defined.

(** C2.  Once a request has been posted, the answer passes four gates in a
    fixed order.  A failure of the transport or of the decoder is returned as
    it is, and is not the signature-check error.  A decoded response whose
    [return_code] is not SUCCESS fails with its [return_msg], whatever its
    [result_code] and [sign]; one whose [return_code] is SUCCESS and whose
    [result_code] is not fails with its [err_code_des], whatever its [sign];
    only when both are SUCCESS does the signature decide, between the
    response itself and the signature-check error. *)
Theorem UnifiedOrder_gate_order `{W : World} (m : myPayer) (p : Params) (req : request) :
  posted (UnifiedOrder m (Some p)) = [req] →
  (∀ x err,
     postUnifiedOrder (req_url req) (req_contentType req) (req_body req) = (x, Some err) →
     returned (UnifiedOrder m (Some p)) = Returns (None, Some err) ∧ err ≠ ErrCheckSign) ∧
  (∀ result,
     postUnifiedOrder (req_url req) (req_contentType req) (req_body req)
       = (Some result, None) →
     (ReturnCode result ≠ "SUCCESS" →
      returned (UnifiedOrder m (Some p))
        = Returns (None, Some (errors_New (ReturnMsg result)))) ∧
     (ReturnCode result = "SUCCESS" → ResultCode result ≠ "SUCCESS" →
      returned (UnifiedOrder m (Some p))
        = Returns (None, Some (errors_New (ErrCodeDes result)))) ∧
     (ReturnCode result = "SUCCESS" → ResultCode result = "SUCCESS" →
      returned (UnifiedOrder m (Some p))
        = if decide (Sign result = recomputed result (signType_of p))
          then Returns (Some result, None)
          else Returns (None, Some ErrCheckSign))).
Proof.
  intros Hp. apply UnifiedOrder_posted in Hp as [Hst ->]. split.
  - intros x err Hpost. rewrite Hpost. split; [by destruct x|].
    by apply postUnifiedOrder_error in Hpost as [? _].
  - intros result ->. split_and!.
    + apply gates_return_code.
    + apply gates_result_code.
    + intros. by apply gates_signature.
Qed.

Lemma UnifiedOrder_gate_order_witness :
  posted (UnifiedOrder (W := gateway_world (prepay_response "ABC")) payer1
            (Some native_order)) = [the_request] ∧
  returned (UnifiedOrder (W := gateway_world (prepay_response "ABC")) payer1
              (Some native_order)) = Returns (None, Some ErrCheckSign).
Proof.
  assert (Hp : posted (UnifiedOrder (W := gateway_world (prepay_response "ABC")) payer1
                         (Some native_order)) = [the_request]) by (by vm_compute).
  split; [exact Hp|].
  destruct (UnifiedOrder_gate_order (W := gateway_world (prepay_response "ABC"))
              payer1 native_order the_request Hp) as [_ Hg].
  destruct (Hg (prepay_response "ABC") eq_refl) as (_ & _ & Hs).
  rewrite (Hs eq_refl eq_refl). by vm_compute.
Defined.

(** C1.  A successful result is the decoded answer to the posted request,
    with [return_code] and [result_code] equal to SUCCESS and a [sign] field
    equal to the signature recomputed over the response under the algorithm
    of the request.  A decoded response whose [sign] differs from the
    recomputed signature always ends in an error, and in the signature-check
    error once both status fields are SUCCESS. *)
Theorem UnifiedOrder_success_is_verified `{W : World} (m : myPayer) (p : Params) :
  (∀ r, returned (UnifiedOrder m (Some p)) = Returns (Some r, None) →
     ∃ req, posted (UnifiedOrder m (Some p)) = [req] ∧
       postUnifiedOrder (req_url req) (req_contentType req) (req_body req)
         = (Some r, None) ∧
       ReturnCode r = "SUCCESS" ∧ ResultCode r = "SUCCESS" ∧
       Sign r = recomputed r (signType_of p)) ∧
  (∀ req result,
     posted (UnifiedOrder m (Some p)) = [req] →
     postUnifiedOrder (req_url req) (req_contentType req) (req_body req)
       = (Some result, None) →
     Sign result ≠ recomputed result (signType_of p) →
     (∃ err, returned (UnifiedOrder m (Some p)) = Returns (None, Some err)) ∧
     (ReturnCode result = "SUCCESS" → ResultCode result = "SUCCESS" →
      returned (UnifiedOrder m (Some p)) = Returns (None, Some ErrCheckSign))).
Proof.
  split.
  - intros r Hr.
    destruct (UnifiedOrder_cases m (Some p)) as [(p' & [= <-] & Hv)|(_ & [Hn|[e Hn]] & _)];
      [|congruence..].
    destruct (sign_and_send_posted_cases (injected m p) (signType_of p)) as [Hsent|[req Hsent]];
      rewrite <- (UnifiedOrder_passes m p Hv) in Hsent.
    + exfalso. revert Hr Hsent. rewrite (UnifiedOrder_passes m p Hv).
      unfold sign_and_send.
      destruct (Params_Sign _ _) as [sign [err|]]; [done|].
      destruct (MarshalXML _) as [msg|reader]; [done|].
      by destruct (postUnifiedOrder _ _ reader) as [[result|] [err|]].
    + exists req. split; [done|].
      destruct (UnifiedOrder_posted m p req Hsent) as [Hst Hret].
      rewrite Hret in Hr.
      destruct (postUnifiedOrder _ _ (req_body req)) as [[result|] [err|]]; try done.
      destruct (decide (ReturnCode result = "SUCCESS")) as [Hc1|Hc1];
        [|by rewrite gates_return_code in Hr].
      destruct (decide (ResultCode result = "SUCCESS")) as [Hc2|Hc2];
        [|by rewrite gates_result_code in Hr].
      rewrite gates_signature in Hr by done. case_decide as Hm; [|done].
      injection Hr as <-. done.
  - intros req result Hsent Hpost Hne.
    destruct (UnifiedOrder_posted m p req Hsent) as [Hst ->]. rewrite Hpost.
    assert (Hcs : ReturnCode result = "SUCCESS" → ResultCode result = "SUCCESS" →
                  gates (signType_of p) result = Returns (None, Some ErrCheckSign)).
    { intros Hc1 Hc2. rewrite gates_signature by done. by rewrite decide_False. }
    split; [|done].
    destruct (decide (ReturnCode result = "SUCCESS")) as [Hc1|Hc1];
      [|rewrite gates_return_code by done; eauto].
    destruct (decide (ResultCode result = "SUCCESS")) as [Hc2|Hc2];
      [|rewrite gates_result_code by done; eauto].
    rewrite Hcs by done. eauto.
Qed.

Lemma UnifiedOrder_success_is_verified_witness :
  returned (UnifiedOrder (W := gateway_world signed_response) payer1 (Some native_order))
    = Returns (Some signed_response, None) ∧
  Sign signed_response
    = recomputed (W := gateway_world signed_response) signed_response "MD5" ∧
  returned (UnifiedOrder (W := gateway_world (prepay_response "ABC")) payer1
              (Some native_order)) = Returns (None, Some ErrCheckSign).
Proof.
  assert (Hr : returned (UnifiedOrder (W := gateway_world signed_response) payer1
                           (Some native_order)) = Returns (Some signed_response, None))
    by (by vm_compute).
  split; [exact Hr|]. split.
  - destruct (proj1 (UnifiedOrder_success_is_verified (W := gateway_world signed_response)
                       payer1 native_order) signed_response Hr)
      as (req & _ & _ & _ & _ & Hs).
    exact Hs.
  - apply (proj2 (UnifiedOrder_success_is_verified
                    (W := gateway_world (prepay_response "ABC")) payer1 native_order)
             the_request (prepay_response "ABC")); by vm_compute.
Defined.

(** ** Claims about the request builder *)

(** C9.  With the payer configured, whatever a call on a non-nil map
    returns, it leaves [appid] and [mch_id] in the caller's map set to the
    credentials, leaves every other entry but [sign] as it was, and either
    leaves [sign] alone or adds it to a map that had none. *)
Theorem UnifiedOrder_injects `{W : World} (m : myPayer) (p : Params) :
  checkForPay m = None →
  ∃ p', caller_param (UnifiedOrder m (Some p)) = Some p' ∧
    p' !! "appid" = Some (VStr (appId m)) ∧
    p' !! "mch_id" = Some (VStr (mchId m)) ∧
    (∀ k, k ≠ "appid" → k ≠ "mch_id" → k ≠ "sign" → p' !! k = p !! k) ∧
    (p' !! "sign" = p !! "sign" ∨
     p !! "sign" = None ∧ ∃ s, p' !! "sign" = Some (VStr s)).
Proof.
  intros Hpay.
  assert (Hinj : ∀ p', p' = injected m p →
            p' !! "appid" = Some (VStr (appId m)) ∧
            p' !! "mch_id" = Some (VStr (mchId m)) ∧
            (∀ k, k ≠ "appid" → k ≠ "mch_id" → k ≠ "sign" → p' !! k = p !! k) ∧
            (p' !! "sign" = p !! "sign" ∨
             p !! "sign" = None ∧ ∃ s, p' !! "sign" = Some (VStr s))).
  { intros p' ->. split; [apply injected_appid|]. split; [apply injected_mch_id|].
    split; [intros; by apply injected_other|]. left. by apply injected_other. }
  destruct (UnifiedOrder_cases m (Some p)) as [(p0 & [= <-] & Hv)|(_ & _ & Hc)].
  - rewrite (UnifiedOrder_passes m p Hv).
    destruct (sign_and_send_caller_param (injected m p) (signType_of p)) as [->|[s ->]].
    + eexists. split; [done|]. by apply Hinj.
    + eexists. split; [done|]. destruct Hv as (_ & _ & Hall).
      assert (Hns : injected m p !! "sign" = None).
      { apply eq_None_not_Some. intros Hs%Hall. by apply sign_not_allowed. }
      rewrite injected_other in Hns by done.
      rewrite !lookup_insert_ne by done. split; [apply injected_appid|].
      split; [apply injected_mch_id|]. split.
      * intros k ? ? ?. rewrite lookup_insert_ne by done. by apply injected_other.
      * right. split; [done|]. exists s. apply lookup_insert_eq.
  - exists (injected m p). split; [by apply Hc|by apply Hinj].
Qed.

Lemma UnifiedOrder_injects_witness :
  @checkForPay quiet_world payer1 = None ∧
  returned (UnifiedOrder (W := quiet_world) payer1
              (Some (<["appid" := VStr "mine"]> jsapi_bare)))
    = Returns (None, Some ErrOpenId) ∧
  ∃ p', caller_param (UnifiedOrder (W := quiet_world) payer1
                        (Some (<["appid" := VStr "mine"]> jsapi_bare))) = Some p' ∧
        p' !! "appid" = Some (VStr "wx1") ∧ p' !! "mch_id" = Some (VStr "m1") ∧
        p' !! "trade_type" = Some (VStr "JSAPI").
Proof.
  split; [reflexivity|]. split; [by vm_compute|].
  destruct (UnifiedOrder_injects (W := quiet_world) payer1
              (<["appid" := VStr "mine"]> jsapi_bare) eq_refl)
    as (p' & Hc & Ha & Hm & Hk & _).
  exists p'. split; [exact Hc|]. split; [exact Ha|]. split; [exact Hm|].
  rewrite Hk by done. by vm_compute.
Defined.

(** C8, counterexample.  A JSAPI request without [openid] does not always
    fail with the missing-openid error: when its [sign_type] holds a value
    that is not a string the call panics at line 146, before the check of line
    150, and when the payer check of line 132 fails the call returns the
    error of that check. *)
Lemma openid_error_preempted :
  (<["sign_type" := VInt 256]> jsapi_bare) !! "trade_type" = Some (VStr "JSAPI") ∧
  (<["sign_type" := VInt 256]> jsapi_bare) !! "openid" = None ∧
  returned (UnifiedOrder (W := quiet_world) payer1
              (Some (<["sign_type" := VInt 256]> jsapi_bare))) = Panics ∧
  jsapi_bare !! "trade_type" = Some (VStr "JSAPI") ∧
  jsapi_bare !! "openid" = None ∧
  returned (UnifiedOrder (W := unconfigured_world) payer1 (Some jsapi_bare))
    = Returns (None, Some (ErrForeign "payer not configured")).
Proof. split_and!; by vm_compute. Qed.

(** C8, as amended.  Once the payer check has passed, and with a [sign_type]
    entry that, when present, holds a string, a call fails with the
    missing-openid error exactly when [trade_type] is the string JSAPI and
    the map has no [openid] key; the same map with another [trade_type] and
    no [openid] does not fail with it. *)
Theorem UnifiedOrder_openid `{W : World} (m : myPayer) (p : Params) :
  checkForPay m = None → sign_type_is_string p →
  (returned (UnifiedOrder m (Some p)) = Returns (None, Some ErrOpenId) ↔
   p !! "trade_type" = Some (VStr "JSAPI") ∧ p !! "openid" = None) ∧
  (∀ t, t ≠ "JSAPI" → p !! "openid" = None →
     returned (UnifiedOrder m (Some (<["trade_type" := VStr t]> p)))
       ≠ Returns (None, Some ErrOpenId)).
Proof.
  intros Hpay Hst.
  assert (Hiff : ∀ q, sign_type_is_string q →
            returned (UnifiedOrder m (Some q)) = Returns (None, Some ErrOpenId) ↔
            q !! "trade_type" = Some (VStr "JSAPI") ∧ q !! "openid" = None).
  { clear p Hst. intros p Hst. unfold UnifiedOrder. rewrite Hpay. fold (injected m p).
    rewrite !injected_other by done.
    destruct (p !! "trade_type") as [[t|n]|] eqn:Ht; simpl;
      [|split; [done|by intros [[=] _]]..].
    assert (match p !! "sign_type" with
            | Some t0 => assert_string t0
            | None => Some SignTypeMD5
            end = Some (signType_of p)) as ->.
    { unfold signType_of. by destruct Hst as [-> | [s ->]]. }
    destruct (bool_decide (t = "JSAPI") && bool_decide (p !! "openid" = None)) eqn:Ho.
    - apply andb_true_iff in Ho as [->%bool_decide_eq_true Hn%bool_decide_eq_true].
      done.
    - apply not_true_iff_false in Ho.
      rewrite andb_true_iff, !bool_decide_eq_true in Ho.
      split; [|intros [[= ->] Hn]; tauto].
      destruct (missing_must (injected m p)) as [v|]; [done|].
      destruct (unneeded (injected m p)) as [k|]; [done|].
      intros Hr. by apply sign_and_send_not_openid in Hr. }
  split; [by apply Hiff|].
  intros t Hne Hopen. rewrite Hiff.
  - rewrite lookup_insert_eq. intros [[= ->] _]. done.
  - unfold sign_type_is_string in *. by rewrite lookup_insert_ne.
Qed.

Lemma UnifiedOrder_openid_witness :
  @checkForPay quiet_world payer1 = None ∧ sign_type_is_string jsapi_bare ∧
  returned (UnifiedOrder (W := quiet_world) payer1 (Some jsapi_bare))
    = Returns (None, Some ErrOpenId) ∧
  returned (UnifiedOrder (W := quiet_world) payer1
              (Some (<["trade_type" := VStr "NATIVE"]> jsapi_bare)))
    ≠ Returns (None, Some ErrOpenId).
Proof.
  assert (Hs : sign_type_is_string jsapi_bare) by (left; reflexivity).
  split; [reflexivity|]. split; [exact Hs|].
  destruct (UnifiedOrder_openid (W := quiet_world) payer1 jsapi_bare eq_refl Hs)
    as [Hiff Hother].
  split.
  - apply Hiff. split; reflexivity.
  - apply Hother; [discriminate|reflexivity].
Defined.

(** C6, counterexample.  A JSAPI request that lacks [openid] and every
    required field from [nonce_str] on fails with the missing-openid error,
    and an empty request fails with the missing-trade-type error; neither
    failure is the error naming [nonce_str], the first required field that
    the map lacks. *)
Lemma need_error_preempted :
  first_missing (injected payer1 jsapi_bare) "nonce_str" ∧
  returned (UnifiedOrder (W := quiet_world) payer1 (Some jsapi_bare))
    = Returns (None, Some ErrOpenId) ∧
  first_missing (injected payer1 ∅) "nonce_str" ∧
  returned (UnifiedOrder (W := quiet_world) payer1 (Some ∅))
    = Returns (None, Some ErrTradeType).
Proof.
  split; [by apply missing_must_Some; vm_compute|]. split; [by vm_compute|].
  split; [by apply missing_must_Some; vm_compute|]. by vm_compute.
Qed.

(** C6, as amended.  For a call that gets as far as the required-field scan
    (payer configured, [trade_type] a string, [sign_type] a string when
    present, [openid] present when the trade type is JSAPI), and with [appid]
    and [mch_id] injected: when a required field is absent the call fails with
    the error [need v], where [v] is the first absent field in the order of
    [unifiedMustParam], and nothing is posted; a request is posted only when
    every required field is present. *)
Theorem UnifiedOrder_need `{W : World} (m : myPayer) (p : Params) :
  reaches_field_checks m p →
  (∀ v, first_missing (injected m p) v →
     returned (UnifiedOrder m (Some p))
       = Returns (None, Some (errors_New ("need " +:+ v))) ∧
     posted (UnifiedOrder m (Some p)) = []) ∧
  (∀ f, f ∈ unifiedMustParam → injected m p !! f = None →
     ∃ v, first_missing (injected m p) v) ∧
  (posted (UnifiedOrder m (Some p)) ≠ [] →
     ∀ f, f ∈ unifiedMustParam → is_Some (injected m p !! f)).
Proof.
  intros Hr. split_and!.
  - intros v Hv%missing_must_Some.
    by rewrite (UnifiedOrder_field_checks m p Hr), Hv.
  - apply first_missing_exists.
  - intros Hp. destruct (UnifiedOrder_cases m (Some p)) as [(p' & [= <-] & Hv)|[Hn _]];
      [|done].
    by destruct Hv as (_ & Hmust & _).
Qed.

Lemma UnifiedOrder_need_witness :
  reaches_field_checks (W := quiet_world) payer1 (delete "body" native_order) ∧
  first_missing (injected payer1 (delete "body" native_order)) "body" ∧
  returned (UnifiedOrder (W := quiet_world) payer1 (Some (delete "body" native_order)))
    = Returns (None, Some (errors_New "need body")).
Proof.
  assert (Hr : reaches_field_checks (W := quiet_world) payer1 (delete "body" native_order)).
  { split; [reflexivity|]. split; [left; reflexivity|].
    exists "NATIVE". split; [reflexivity|]. intros [Hj _]. discriminate Hj. }
  assert (Hf : first_missing (injected payer1 (delete "body" native_order)) "body").
  { exists ["appid"; "mch_id"; "nonce_str"],
      ["out_trade_no"; "total_fee"; "spbill_create_ip"; "notify_url"; "trade_type"].
    split; [reflexivity|]. split; [reflexivity|].
    intros x Hx. apply (bool_decide_unpack _).
    apply list_elem_of_In in Hx. simpl in Hx.
    destruct Hx as [<-|[<-|[<-|[]]]]; vm_compute; exact I. }
  split; [exact Hr|]. split; [exact Hf|].
  apply (proj1 (UnifiedOrder_need (W := quiet_world) payer1 _ Hr) "body" Hf).
Defined.

Lemma allowed_appid : allowed "appid".
Proof. left. apply (bool_decide_unpack _). by vm_compute. Qed.

Lemma allowed_mch_id : allowed "mch_id".
Proof. left. apply (bool_decide_unpack _). by vm_compute. Qed.

(** The injection adds no key outside the two slices. *)
Lemma injected_unknown `{W : World} (m : myPayer) (p : Params) (k : string) :
  ¬ allowed k → injected m p !! k = p !! k.
Proof.
  intros Hk. apply injected_other; intros ->; apply Hk.
  - apply allowed_appid.
  - apply allowed_mch_id.
Qed.

Lemma injected_all_allowed `{W : World} (m : myPayer) (p : Params) :
  (∀ k, is_Some (p !! k) → allowed k) →
  ∀ k, is_Some (injected m p !! k) → allowed k.
Proof.
  intros Hall k Hk. destruct (decide (allowed k)) as [|Hna]; [done|].
  rewrite injected_unknown in Hk by done. by apply Hall.
Qed.

(** C7, counterexample.  A request with the unknown field [foo] and without
    the required field [body] fails with the error naming [body], not with an
    error naming a field outside the two sets. *)
Lemma unknown_field_preempted :
  is_Some (stray_order !! "foo") ∧ ¬ allowed "foo" ∧ allowed "body" ∧
  returned (UnifiedOrder (W := quiet_world) payer1 (Some stray_order))
    = Returns (None, Some (errors_New "need body")) ∧
  returned (UnifiedOrder (W := quiet_world) payer1 (Some stray_order))
    ≠ Returns (None, Some (errors_New "no need foo param")).
Proof.
  split; [by eexists; vm_compute|].
  split; [unfold allowed; apply (bool_decide_unpack _); by vm_compute|].
  split; [left; apply (bool_decide_unpack _); by vm_compute|].
  split; by vm_compute.
Qed.

(** C7, as amended.  A call on a map with a key outside both slices never
    succeeds and posts nothing; when it gets as far as the required-field scan
    and every required field is present, it fails with the error
    [no need k param] for a key [k] of the map that is outside both slices.
    A map whose keys are all in one of the slices passes the check: under the
    same conditions the call goes on to sign and send. *)
Theorem UnifiedOrder_unknown_field `{W : World} (m : myPayer) (p : Params) :
  ((∃ k, is_Some (p !! k) ∧ ¬ allowed k) →
     posted (UnifiedOrder m (Some p)) = [] ∧
     (∀ r, returned (UnifiedOrder m (Some p)) ≠ Returns (Some r, None)) ∧
     (reaches_field_checks m p →
      (∀ f, f ∈ unifiedMustParam → is_Some (injected m p !! f)) →
      ∃ k, is_Some (p !! k) ∧ ¬ allowed k ∧
           returned (UnifiedOrder m (Some p))
             = Returns (None, Some (errors_New ("no need " +:+ k +:+ " param"))))) ∧
  ((∀ k, is_Some (p !! k) → allowed k) →
   reaches_field_checks m p →
   (∀ f, f ∈ unifiedMustParam → is_Some (injected m p !! f)) →
   UnifiedOrder m (Some p) = sign_and_send (injected m p) (signType_of p)).
Proof.
  split.
  - intros (k & Hk & Hna).
    assert (Hnv : ¬ passes_validation m p).
    { intros (_ & _ & Hall). apply Hna, Hall. by rewrite injected_unknown. }
    destruct (UnifiedOrder_cases m (Some p)) as [(p' & [= <-] & Hv)|(Hp & Hret & _)];
      [done|].
    split; [done|]. split.
    + intros r Hr. destruct Hret as [Hret|[err Hret]]; congruence.
    + intros Hr Hmust. rewrite (UnifiedOrder_field_checks m p Hr).
      rewrite (proj2 (missing_must_None _) Hmust).
      destruct (unneeded (injected m p)) as [k'|] eqn:Hu.
      * apply unneeded_Some in Hu as [Hk' Hna'].
        rewrite injected_unknown in Hk' by done. eauto.
      * exfalso. apply Hnv. split; [done|]. split.
        -- done.
        -- by apply unneeded_None.
  - intros Hall Hr Hmust. apply UnifiedOrder_passes.
    split; [done|]. split; [done|]. by apply injected_all_allowed.
Qed.

Lemma UnifiedOrder_unknown_field_witness :
  (∃ k, is_Some (<["foo" := VStr "1"]> native_order !! k) ∧ ¬ allowed k) ∧
  posted (UnifiedOrder (W := quiet_world) payer1
            (Some (<["foo" := VStr "1"]> native_order))) = [] ∧
  ∃ k, ¬ allowed k ∧
    returned (UnifiedOrder (W := quiet_world) payer1
                (Some (<["foo" := VStr "1"]> native_order)))
      = Returns (None, Some (errors_New ("no need " +:+ k +:+ " param"))).
Proof.
  assert (Hk : ∃ k, is_Some (<["foo" := VStr "1"]> native_order !! k) ∧ ¬ allowed k).
  { exists "foo". split; [eexists; reflexivity|].
    unfold allowed. apply (bool_decide_unpack _). vm_compute. exact I. }
  destruct (proj1 (UnifiedOrder_unknown_field (W := quiet_world) payer1
                     (<["foo" := VStr "1"]> native_order)) Hk) as (Hp & _ & Hnamed).
  split; [exact Hk|]. split; [exact Hp|].
  destruct Hnamed as (k & _ & Hna & Hret).
  - split; [reflexivity|]. split; [left; reflexivity|].
    exists "NATIVE". split; [reflexivity|]. intros [Hj _]. discriminate Hj.
  - apply missing_must_None. reflexivity.
  - exists k. split; [exact Hna|exact Hret].
Defined.

(** * Further properties *)

(** ** Param and ListParam *)

(** [Param] on one of its thirteen keys. *)
Lemma Param_named (u : unifiedResult) (k s : string) :
  (k, s) ∈ named_fields u → Param u k = (Some (VStr s), None).
Proof.
  intros Hk. unfold named_fields in Hk.
  repeat (apply elem_of_cons in Hk as [[= -> ->]|Hk]; [reflexivity|]).
  by apply elem_of_nil in Hk.
Qed.

Lemma Param_inv (u : unifiedResult) (k : string) (v : value) :
  Param u k = (Some v, None) → ∃ s, v = VStr s ∧ (k, s) ∈ named_fields u.
Proof.
  unfold Param, named_fields.
  repeat (case_bool_decide as Hk;
          [subst k; intros [= <-]; eexists; split; [reflexivity|];
           rewrite !elem_of_cons; tauto|clear Hk]).
  done.
Qed.

Lemma struct_tags (u : unifiedResult) :
  tagName <$> (reflect_fields u).*1 = wire_names.
Proof. reflexivity. Qed.

(** X1.  The keys [Param] answers are exactly the names in the [xml] tags of
    the fields of [unifiedResult]: on each of them it returns a string with a
    nil error, and on every other key it returns nil with the error
    [invalid key: key]. *)
Theorem Param_keys (u : unifiedResult) (key : string) :
  (key ∈ tagName <$> (reflect_fields u).*1 ↔
   ∃ s, Param u key = (Some (VStr s), None)) ∧
  ((key ∉ tagName <$> (reflect_fields u).*1) →
   Param u key = (None, Some (errors_New ("invalid key: " +:+ key)))).
Proof.
  rewrite struct_tags.
  assert (Hout : (key ∉ wire_names) →
            Param u key = (None, Some (errors_New ("invalid key: " +:+ key)))).
  { intros Hk. unfold Param.
    repeat (case_bool_decide as Hn;
            [exfalso; apply Hk; subst key; unfold wire_names;
             rewrite !elem_of_cons; tauto|clear Hn]).
    reflexivity. }
  split; [|done]. split.
  - unfold wire_names. intros Hk.
    repeat (apply elem_of_cons in Hk as [->|Hk]; [eexists; reflexivity|]).
    by apply elem_of_nil in Hk.
  - intros [s Hs]. destruct (decide (key ∈ wire_names)) as [|Hk]; [done|].
    rewrite (Hout Hk) in Hs. done.
Qed.

Lemma Param_keys_witness :
  ("openid" ∉ tagName <$> (reflect_fields signed_response).*1) ∧
  Param signed_response "openid" = (None, Some (errors_New "invalid key: openid")) ∧
  Param signed_response "prepay_id" = (Some (VStr "wx201"), None).
Proof.
  assert (Hout : "openid" ∉ tagName <$> (reflect_fields signed_response).*1)
    by (apply (bool_decide_unpack _); vm_compute; exact I).
  split; [exact Hout|]. split.
  - apply (proj2 (Param_keys signed_response "openid") Hout).
  - reflexivity.
Defined.

(** X2.  The map built by [ListParam] holds exactly the fields that [Param]
    returns and that are not empty: an entry of the map is what [Param]
    returns for its key, and a field is left out only when it is the empty
    string. *)
Theorem ListParam_agrees_with_Param (u : unifiedResult) (key : string) (v : value) :
  ListParam u !! key = Some v ↔ Param u key = (Some v, None) ∧ IsZero v = false.
Proof.
  rewrite ListParam_lookup. split.
  - intros (s & Hs & Hne & ->). split; [by apply Param_named|].
    simpl. by apply bool_decide_eq_false_2.
  - intros [(s & -> & Hs)%Param_inv Hz]. exists s. split; [done|]. split; [|done].
    simpl in Hz. by apply bool_decide_eq_false in Hz.
Qed.

(** ** Struct tags *)

Lemma Split_no_sep (s : string) (c : ascii) :
  (∀ a, a ∈ list_ascii_of_string s → a ≠ c) → Split s c = [s].
Proof.
  induction s as [|a s IH]; intros Hs; [done|]. simpl.
  rewrite (proj2 (Ascii.eqb_neq a c)) by (apply Hs; simpl; apply elem_of_cons; auto).
  rewrite IH; [done|]. intros b Hb. apply Hs. simpl. apply elem_of_cons. auto.
Qed.

Lemma Split_first (s t : string) (c : ascii) :
  (∀ a, a ∈ list_ascii_of_string s → a ≠ c) →
  Split (s +:+ String c t) c = s :: Split t c.
Proof.
  induction s as [|a s IH]; intros Hs.
  - simpl. by rewrite Ascii.eqb_refl.
  - rewrite append_cons. simpl.
    rewrite (proj2 (Ascii.eqb_neq a c)) by (apply Hs; simpl; apply elem_of_cons; auto).
    rewrite IH; [done|]. intros b Hb. apply Hs. simpl. apply elem_of_cons. auto.
Qed.

(** X12.  Line 82 recovers the wire name from a struct tag: for every name
    without a double quote, splitting the tag [xml:<quote>name<quote>] at the
    double quotes and taking the element of index 1 gives the name back. *)
Theorem tagName_xml_tag (name : string) :
  (∀ a, a ∈ list_ascii_of_string name → a ≠ dquote) →
  tagName (xml_tag name) = name.
Proof.
  intros Hn. unfold tagName.
  change (xml_tag name) with ("xml:" +:+ String dquote (name +:+ String dquote "")).
  rewrite (Split_first "xml:" _ dquote).
  - rewrite (Split_first name "" dquote Hn). reflexivity.
  - intros a Ha. simpl in Ha.
    repeat (apply elem_of_cons in Ha as [->|Ha]; [discriminate|]).
    by apply elem_of_nil in Ha.
Qed.

Lemma tagName_xml_tag_witness :
  (∀ a, a ∈ list_ascii_of_string "err_code_des" → a ≠ dquote) ∧
  tagName (xml_tag "err_code_des") = "err_code_des".
Proof.
  assert (Hn : ∀ a, a ∈ list_ascii_of_string "err_code_des" → a ≠ dquote).
  { intros a Ha. simpl in Ha.
    repeat (apply elem_of_cons in Ha as [->|Ha]; [discriminate|]).
    by apply elem_of_nil in Ha. }
  split; [exact Hn|]. exact (tagName_xml_tag "err_code_des" Hn).
Defined.

(** ** More on checkWxSign *)

Lemma checkWxSign_no_panic `{W : World} (u : unifiedResult) (signType : string) :
  ∃ ok err, checkWxSign u signType = Returns (ok, err).
Proof.
  destruct (decide (supported signType)) as [Hs|Hs].
  - rewrite checkWxSign_supported by done. case_decide; eauto.
  - rewrite checkWxSign_unsupported by done. eauto.
Qed.

(** X3.  [checkWxSign] always returns: the type assertion of line 124 cannot
    fail, since [ListParam] stores strings only.  When it returns an error the
    verdict is [false] and the error is the invalid-algorithm or the
    missing-signature one; a [true] verdict never comes with an error. *)
Theorem checkWxSign_returns `{W : World} (u : unifiedResult) (signType : string) :
  ∃ ok err, checkWxSign u signType = Returns (ok, err) ∧
    (err = None ∨ ok = false ∧ (err = Some ErrSignType ∨ err = Some ErrNoSign)).
Proof.
  destruct (decide (supported signType)) as [Hs|Hs].
  - rewrite checkWxSign_supported by done. case_decide; eauto 10.
  - rewrite checkWxSign_unsupported by done. eauto 10.
Qed.

Lemma upper_ascii_idemp (c : ascii) : upper_ascii (upper_ascii c) = upper_ascii c.
Proof. destruct c as [[] [] [] [] [] [] [] []]; reflexivity. Qed.

Lemma ToUpper_idemp (s : string) : ToUpper (ToUpper s) = ToUpper s.
Proof. induction s as [|c s IH]; [done|]. simpl. by rewrite upper_ascii_idemp, IH. Qed.

(** X6.  A signature is accepted only in upper case: when [checkWxSign]
    reports a match, the [Sign] field is not empty and upper-casing leaves it
    unchanged. *)
Theorem checkWxSign_accepts_upper_case `{W : World} (u : unifiedResult) (signType : string) :
  checkWxSign u signType = Returns (true, None) →
  Sign u ≠ "" ∧ ToUpper (Sign u) = Sign u.
Proof.
  intros Hok. destruct (decide (supported signType)) as [Hs|Hs];
    [|by rewrite checkWxSign_unsupported in Hok].
  rewrite checkWxSign_supported in Hok by done.
  case_decide as Hz; [done|]. split; [done|].
  injection Hok as Hb. apply bool_decide_eq_true in Hb. rewrite <- Hb.
  unfold wxSign, digest.
  destruct (supported_effective signType Hs) as [-> | ->]; simpl;
    apply ToUpper_idemp.
Qed.

Lemma checkWxSign_accepts_upper_case_witness :
  checkWxSign (W := quiet_world) signed_response "MD5" = Returns (true, None) ∧
  Sign signed_response ≠ "" ∧ ToUpper (Sign signed_response) = Sign signed_response.
Proof.
  assert (Hok : checkWxSign (W := quiet_world) signed_response "MD5" = Returns (true, None))
    by (by vm_compute).
  split; [exact Hok|].
  exact (checkWxSign_accepts_upper_case (W := quiet_world) signed_response "MD5" Hok).
Defined.

(** The loop reads the map at the keys other than [sign] only. *)
Lemma signStr_loop_ext (p q : Params) (i : nat) (keys : list string) (acc : string) :
  (∀ k, k ∈ keys → k ≠ "sign" → Get p k = Get q k) →
  signStr_loop p i keys acc = signStr_loop q i keys acc.
Proof.
  revert i acc. induction keys as [|k keys IH]; intros i acc Hpq; [done|]. simpl.
  case_bool_decide as Hk.
  - apply IH. intros k' Hk'. apply Hpq, elem_of_cons. auto.
  - rewrite (Hpq k) by (done || apply elem_of_cons; auto).
    apply IH. intros k' Hk'. apply Hpq, elem_of_cons. auto.
Qed.

Lemma ListParam_with_Sign_sign (u : unifiedResult) (s : string) :
  ListParam (with_Sign u s) !! "sign" = if decide (s = "") then None else Some (VStr s).
Proof. apply ListParam_sign. Qed.

(** Two non-empty signatures give the same sorted keys. *)
Lemma SortKey_with_Sign (u : unifiedResult) (s1 s2 : string) :
  s1 ≠ "" → s2 ≠ "" →
  SortKey (ListParam (with_Sign u s1)) = SortKey (ListParam (with_Sign u s2)).
Proof.
  intros H1 H2. apply (StronglySorted_unique String.le); [apply SortKey_sorted..|].
  apply NoDup_Permutation; [apply SortKey_NoDup..|].
  intros k. rewrite !elem_of_SortKey.
  destruct (decide (k = "sign")) as [->|Hk].
  - rewrite !ListParam_with_Sign_sign, !decide_False by done.
    split; intros _; eexists; (split; [done|]); simpl; by apply bool_decide_eq_false_2.
  - by rewrite !(ListParam_with_Sign u _ k Hk).
Qed.

Lemma signStr_of_with_Sign `{W : World} (u : unifiedResult) (s1 s2 : string) :
  s1 ≠ "" → s2 ≠ "" → signStr_of (with_Sign u s1) = signStr_of (with_Sign u s2).
Proof.
  intros H1 H2. unfold signStr_of. rewrite (SortKey_with_Sign u s1 s2) by done.
  f_equal. apply signStr_loop_ext. intros k _ Hk. unfold Get.
  by rewrite !(ListParam_with_Sign u _ k Hk).
Qed.

(** X5.  The stored signature takes no part in the string that is hashed, so
    for given other fields at most one signature is accepted: if [checkWxSign]
    reports a match for two responses that differ in their [Sign] field only,
    the two signatures are equal. *)
Theorem checkWxSign_one_signature `{W : World} (u : unifiedResult)
    (s1 s2 signType : string) :
  checkWxSign (with_Sign u s1) signType = Returns (true, None) →
  checkWxSign (with_Sign u s2) signType = Returns (true, None) →
  s1 = s2.
Proof.
  intros Hok1 Hok2. destruct (decide (supported signType)) as [Hs|Hs];
    [|by rewrite checkWxSign_unsupported in Hok1].
  rewrite checkWxSign_supported in Hok1, Hok2 by done. simpl in *.
  destruct (decide (s1 = "")) as [|Hz1]; [done|].
  destruct (decide (s2 = "")) as [|Hz2]; [done|].
  injection Hok1 as Hb1. injection Hok2 as Hb2.
  apply bool_decide_eq_true in Hb1, Hb2. rewrite <- Hb1, <- Hb2.
  unfold wxSign. by rewrite (signStr_of_with_Sign u s1 s2).
Qed.

Lemma checkWxSign_one_signature_witness :
  checkWxSign (W := quiet_world) (with_Sign (prepay_response "ABC") (Sign signed_response))
    "MD5" = Returns (true, None) ∧
  Sign signed_response = Sign signed_response.
Proof.
  assert (Hok : checkWxSign (W := quiet_world)
                  (with_Sign (prepay_response "ABC") (Sign signed_response)) "MD5"
                = Returns (true, None)) by (by vm_compute).
  split; [exact Hok|].
  exact (checkWxSign_one_signature (W := quiet_world) (prepay_response "ABC")
           (Sign signed_response) (Sign signed_response) "MD5" Hok Hok).
Defined.

(** ** Where the hashed string departs from the canonical one *)

Lemma elem_of_SortKey_ListParam (u : unifiedResult) (k : string) :
  k ∈ SortKey (ListParam u) ↔ ∃ s, (k, s) ∈ named_fields u ∧ s ≠ "".
Proof.
  rewrite elem_of_SortKey. split.
  - intros (v & (s & Hs & Hne & _)%ListParam_lookup & _). eauto.
  - intros (s & Hs & Hne). exists (VStr s). split.
    + apply ListParam_lookup. eauto.
    + simpl. by apply bool_decide_eq_false_2.
Qed.

(** A sorted list without duplicates is fixed by its elements. *)
Lemma SortKey_is (p : Params) (l : list string) :
  StronglySorted String.le l → NoDup l → (∀ k, k ∈ SortKey p ↔ k ∈ l) →
  SortKey p = l.
Proof.
  intros Hs Hnd Hel. apply (StronglySorted_unique String.le); [apply SortKey_sorted|done|].
  apply NoDup_Permutation; [apply SortKey_NoDup|done..].
Qed.

Section separator.
Context `{W : World}.

Lemma signStr_of_sign_only (u : unifiedResult) :
  SortKey (ListParam u) = ["sign"] →
  signStr_of u = canonical (ListParam u) (apiKey defaultPayer).
Proof. intros Hk. unfold signStr_of, canonical, pairs. by rewrite Hk. Qed.

Lemma signStr_of_sign_first (u : unifiedResult) (k : string) :
  SortKey (ListParam u) = ["sign"; k] → k ≠ "sign" →
  signStr_of u = "&" +:+ canonical (ListParam u) (apiKey defaultPayer).
Proof.
  intros Hk Hne. unfold signStr_of, canonical, pairs. rewrite Hk. simpl.
  rewrite !filter_cons, decide_False, decide_True, filter_nil by (done || tauto).
  rewrite bool_decide_eq_false_2 by done. simpl.
  change ("" +:+ "&" +:+ k +:+ "=" +:+ fmt_v (Get (ListParam u) k))
    with ("&" +:+ pair_of (ListParam u) k).
  by rewrite !append_assoc.
Qed.

End separator.

Ltac named_in := unfold named_fields; rewrite !elem_of_cons; tauto.

Ltac before_sign name field :=
  destruct (decide (field = "")) as [?|?];
  [|right; apply signStr_of_canonical, (SortKey_head_not_sign _ name);
    [apply elem_of_SortKey_ListParam; exists field; split; [named_in|done]
    |done|by vm_compute]].

(** X4.  The string [checkWxSign] hashes is the canonical string (the pairs
    of the sorted non-empty keys other than [sign], joined by [&], then
    [&key=] and the key), except for the responses in which [sign] and
    [trade_type] are set and nothing else: for those, and only those, it is
    the canonical string with one more [&] in front. *)
Theorem signStr_of_separator `{W : World} (u : unifiedResult) :
  (sign_sorts_first u →
   signStr_of u = "&" +:+ canonical (ListParam u) (apiKey defaultPayer)) ∧
  (¬ sign_sorts_first u →
   signStr_of u = canonical (ListParam u) (apiKey defaultPayer)).
Proof.
  assert (Hcases : sign_sorts_first u ∨
            signStr_of u = canonical (ListParam u) (apiKey defaultPayer)).
  { destruct (decide (Sign u = "")) as [Hz|Hs].
    { right. apply signStr_of_canonical. intros Hhd.
      assert (Hin : "sign" ∈ SortKey (ListParam u)).
      { destruct (SortKey (ListParam u)); simplify_eq/=. apply elem_of_cons; auto. }
      apply elem_of_SortKey in Hin as (v & Hv & _).
      rewrite ListParam_sign, decide_True in Hv; done. }
    before_sign "return_code" (ReturnCode u).
    before_sign "return_msg" (ReturnMsg u).
    before_sign "appid" (Appid u).
    before_sign "mch_id" (MchId u).
    before_sign "device_info" (DeviceInfo u).
    before_sign "nonce_str" (NonceStr u).
    before_sign "result_code" (ResultCode u).
    before_sign "err_code" (ErrCode u).
    before_sign "err_code_des" (ErrCodeDes u).
    before_sign "prepay_id" (PrepayId u).
    before_sign "code_url" (CodeUrl u).
    destruct (decide (TradeType u = "")) as [Ht|Ht]; [right|left; by repeat split].
    apply signStr_of_sign_only, SortKey_is.
    - repeat constructor.
    - apply NoDup_singleton.
    - intros k. rewrite elem_of_SortKey_ListParam, list_elem_of_singleton. split.
      + intros (s & Hk & Hne). field_cases Hk; simplify_eq; congruence.
      + intros ->. exists (Sign u). split; [named_in|done]. }
  split.
  - intros (Hs & Ht & E1 & E2 & E3 & E4 & E5 & E6 & E7 & E8 & E9 & E10 & E11).
    apply (signStr_of_sign_first u "trade_type"); [|done]. apply SortKey_is.
    + repeat constructor; by vm_compute.
    + apply (bool_decide_unpack _). by vm_compute.
    + intros k. rewrite elem_of_SortKey_ListParam, !elem_of_cons, elem_of_nil. split.
      * intros (s & Hk & Hne). field_cases Hk; simplify_eq; (congruence || tauto).
      * intros [->|[->|[]]]; [exists (Sign u)|exists (TradeType u)];
          (split; [named_in|done]).
  - intros Hn. by destruct Hcases.
Qed.

Lemma signStr_of_separator_witness :
  sign_sorts_first (only_trade_type "X") ∧
  signStr_of (W := quiet_world) (only_trade_type "X")
    = "&" +:+ canonical (ListParam (only_trade_type "X")) "secret" ∧
  ¬ sign_sorts_first signed_response ∧
  signStr_of (W := quiet_world) signed_response
    = canonical (ListParam signed_response) "secret".
Proof.
  assert (Hy : sign_sorts_first (only_trade_type "X")).
  { unfold sign_sorts_first. simpl. split; [discriminate|]. split; [discriminate|].
    repeat split. }
  assert (Hn : ¬ sign_sorts_first signed_response).
  { intros (_ & _ & Hrc & _). discriminate Hrc. }
  split; [exact Hy|].
  split; [exact (proj1 (signStr_of_separator (W := quiet_world) _) Hy)|].
  split; [exact Hn|].
  exact (proj2 (signStr_of_separator (W := quiet_world) _) Hn).
Defined.

(** ** More on postUnifiedOrder and UnifiedOrder *)

Section more_builder.
Context `{W : World}.

Lemma postUnifiedOrder_error_shape (url contentType body : string)
    (x : option unifiedResult) (err : error) :
  postUnifiedOrder url contentType body = (x, Some err) →
  (∃ msg, err = errors_New msg) ∨ (∃ msg, err = ErrForeign msg).
Proof.
  unfold postUnifiedOrder. destruct (http_Post url contentType body) as [msg|response].
  - intros [= <- <-]. eauto.
  - case_bool_decide; [intros [= <- <-]; eauto|].
    destruct (xml_Decode (Body response)) as [result [msg|]]; intros [= <- <-]. eauto.
Qed.

Lemma gates_shape (signType : string) (r : unifiedResult) :
  gates signType r = Returns (Some r, None) ∨
  ∃ err, gates signType r = Returns (None, Some err) ∧
         (err = ErrCheckSign ∨ ∃ msg, err = errors_New msg).
Proof.
  unfold gates. case_bool_decide; [right; eauto 10|].
  case_bool_decide; [right; eauto 10|].
  destruct (checkWxSign_no_panic r signType) as (ok & err & ->).
  destruct (negb ok || bool_decide (err ≠ None)); [right; eauto 10|by left].
Qed.

(** How a call that reached line 171 can end. *)
Lemma sign_and_send_outcome (p : Params) (signType : string) :
  (returned (sign_and_send p signType) = Panics ∧
   ∃ body, xml_Decode body = (None, None)) ∨
  (∃ r, returned (sign_and_send p signType) = Returns (Some r, None)) ∨
  ∃ err, returned (sign_and_send p signType) = Returns (None, Some err) ∧
         (err = ErrSignType ∨ err = ErrCheckSign ∨
          (∃ msg, err = errors_New msg) ∨ ∃ msg, err = ErrForeign msg).
Proof.
  unfold sign_and_send.
  destruct (Params_Sign_cases p signType) as [[Hst ->]|[_ ->]];
    [|right; right; eauto 10].
  destruct (MarshalXML _) as [msg|reader]; [right; right; eauto 10|].
  destruct (postUnifiedOrder _ _ reader) as [[result|] [err|]] eqn:Hpost; simpl.
  - apply postUnifiedOrder_error_shape in Hpost. right; right.
    eexists. split; [done|]. tauto.
  - destruct (gates_shape signType result) as [->|(err & -> & Herr)]; right.
    + left. eauto.
    + right. eexists. split; [done|]. tauto.
  - apply postUnifiedOrder_error_shape in Hpost. right; right.
    eexists. split; [done|]. tauto.
  - left. split; [done|]. revert Hpost. unfold postUnifiedOrder.
    destruct (http_Post _ _ reader) as [msg|response]; [done|].
    case_bool_decide; [done|].
    destruct (xml_Decode (Body response)) as [[r|] [msg|]] eqn:Hd; try done. eauto.
Qed.

Lemma sign_and_send_request (p : Params) (signType : string) (req : request) :
  posted (sign_and_send p signType) = [req] →
  req_url req = unifiedOrderUrl ∧
  req_contentType req = "application/xml;charset=utf-8" ∧
  ∃ s, caller_param (sign_and_send p signType) = Some (<["sign" := VStr s]> p) ∧
       MarshalXML (<["sign" := VStr s]> p) = inr (req_body req).
Proof.
  unfold sign_and_send. destruct (Params_Sign p signType) as [sign [err|]]; [done|].
  destruct (MarshalXML _) as [msg|reader] eqn:Hm; [done|].
  destruct (postUnifiedOrder _ _ reader) as [[result|] [err|]];
    intros [= <-]; simpl; eauto.
Qed.

End more_builder.

(** X7.  [postUnifiedOrder] returns a response with a nil error exactly when
    the transport answers with status 200 and the decoder returns that
    response with no error; on any other status it fails with the error
    [http StatusCode: n], whatever the body holds. *)
Theorem postUnifiedOrder_ok `{W : World} (url contentType body : string) :
  (∀ r, postUnifiedOrder url contentType body = (Some r, None) ↔
        ∃ response, http_Post url contentType body = inr response ∧
                    StatusCode response = 200 ∧
                    xml_Decode (Body response) = (Some r, None)) ∧
  (∀ response, http_Post url contentType body = inr response →
     StatusCode response ≠ 200 →
     postUnifiedOrder url contentType body
     = (None, Some (errors_New ("http StatusCode: " +:+ pretty (StatusCode response))))).
Proof.
  split.
  - intros r. unfold postUnifiedOrder. split.
    + destruct (http_Post url contentType body) as [msg|response]; [done|].
      case_bool_decide as Hs; [done|].
      destruct (xml_Decode (Body response)) as [result [msg|]] eqn:Hd; [done|].
      intros [= ->]. exists response. split; [done|]. split; [|done].
      by destruct (decide (StatusCode response = 200)).
    + intros (response & -> & Hs & ->). by rewrite bool_decide_eq_false_2 by (by intros []).
  - intros response Hp Hs. unfold postUnifiedOrder. rewrite Hp.
    by rewrite bool_decide_eq_true_2.
Qed.

Lemma postUnifiedOrder_ok_witness :
  postUnifiedOrder (W := gateway_world signed_response) unifiedOrderUrl "text/xml" "<xml/>"
    = (Some signed_response, None) ∧
  postUnifiedOrder
    (W := a_world "secret" None (inr (mkResponse 502 "gateway")) (Some signed_response, None))
    unifiedOrderUrl "text/xml" "<xml/>"
    = (None, Some (errors_New "http StatusCode: 502")).
Proof.
  split.
  - apply (proj1 (postUnifiedOrder_ok (W := gateway_world signed_response) _ _ _)).
    exists (mkResponse 200 "<xml></xml>"). repeat split.
  - apply (proj2 (postUnifiedOrder_ok
                    (W := a_world "secret" None (inr (mkResponse 502 "gateway"))
                            (Some signed_response, None)) unifiedOrderUrl "text/xml" "<xml/>")
             (mkResponse 502 "gateway")); [reflexivity|discriminate].
Defined.

(** X8.  A call posts at most one request.  A posted request goes to
    [unifiedOrderUrl] with the content type [application/xml;charset=utf-8],
    and its body is the serialization of the caller's map as the call leaves
    it: a map that carries a [sign], the credentials under [appid] and
    [mch_id], every required field, and no key besides [sign] outside the
    required and optional fields. *)
Theorem UnifiedOrder_posted_request `{W : World} (m : myPayer) (param : option Params) :
  (length (posted (UnifiedOrder m param)) ≤ 1)%nat ∧
  (∀ req, posted (UnifiedOrder m param) = [req] →
     req_url req = unifiedOrderUrl ∧
     req_contentType req = "application/xml;charset=utf-8" ∧
     ∃ q, caller_param (UnifiedOrder m param) = Some q ∧
          MarshalXML q = inr (req_body req) ∧
          (∃ s, q !! "sign" = Some (VStr s)) ∧
          q !! "appid" = Some (VStr (appId m)) ∧
          q !! "mch_id" = Some (VStr (mchId m)) ∧
          (∀ f, f ∈ unifiedMustParam → is_Some (q !! f)) ∧
          (∀ k, is_Some (q !! k) → k = "sign" ∨ allowed k)).
Proof.
  destruct (UnifiedOrder_cases m param) as [(p & -> & Hv)|(Hn & _)].
  - rewrite (UnifiedOrder_passes m p Hv). split.
    + destruct (sign_and_send_posted_cases (injected m p) (signType_of p))
        as [->|[req ->]]; simpl; lia.
    + intros req (Hurl & Hct & s & Hc & Hm)%sign_and_send_request.
      split; [done|]. split; [done|]. eexists. split; [exact Hc|]. split; [exact Hm|].
      destruct Hv as (_ & Hmust & Hall). split_and!.
      * exists s. apply lookup_insert_eq.
      * rewrite lookup_insert_ne by done. apply injected_appid.
      * rewrite lookup_insert_ne by done. apply injected_mch_id.
      * intros f Hf. rewrite lookup_insert_ne; [by apply Hmust|].
        intros <-. apply sign_not_allowed. by left.
      * intros k Hk. destruct (decide (k = "sign")) as [|Hne]; [by left|].
        right. apply Hall. by rewrite lookup_insert_ne in Hk.
  - rewrite Hn. split; [simpl; lia|done].
Qed.

Lemma UnifiedOrder_posted_request_witness :
  posted (UnifiedOrder (W := gateway_world signed_response) payer1 (Some native_order))
    = [the_request] ∧
  ∃ q, caller_param (UnifiedOrder (W := gateway_world signed_response) payer1
                       (Some native_order)) = Some q ∧
       q !! "appid" = Some (VStr "wx1") ∧ ∃ s, q !! "sign" = Some (VStr s).
Proof.
  assert (Hp : posted (UnifiedOrder (W := gateway_world signed_response) payer1
                         (Some native_order)) = [the_request]) by (by vm_compute).
  split; [exact Hp|].
  destruct (proj2 (UnifiedOrder_posted_request (W := gateway_world signed_response)
                     payer1 (Some native_order)) the_request Hp)
    as (_ & _ & q & Hc & _ & Hs & Ha & _).
  exists q. split; [exact Hc|]. split; [exact Ha|exact Hs].
Defined.

(** X9.  With a decoder that never hands back a nil pointer without an
    error, a call on a non-nil map panics exactly when the payer check passes
    and one of the two unchecked type assertions fails: [trade_type] holds a
    value that is not a string (line 141), or [trade_type] is a string and
    [sign_type] holds a value that is not one (line 146). *)
Theorem UnifiedOrder_panics `{W : World} (m : myPayer) (p : Params) :
  (∀ body, xml_Decode body ≠ (None, None)) →
  returned (UnifiedOrder m (Some p)) = Panics ↔
  checkForPay m = None ∧
  ((∃ n, p !! "trade_type" = Some (VInt n)) ∨
   (∃ t n, p !! "trade_type" = Some (VStr t) ∧ p !! "sign_type" = Some (VInt n))).
Proof.
  intros Hdec. unfold UnifiedOrder.
  destruct (checkForPay m) as [err|] eqn:Hpay; [split; [done|by intros [[=] _]]|].
  fold (injected m p). rewrite !injected_other by done.
  destruct (p !! "trade_type") as [[t|n]|] eqn:Ht; simpl.
  - destruct (p !! "sign_type") as [[s|n]|] eqn:Hs; simpl.
    3: set (s := SignTypeMD5).
    2: { split; [|done]. intros _. split; [done|]. right. eauto. }
    all: split; [|intros [_ [(? & [=])|(? & ? & _ & [=])]]].
    all: destruct (bool_decide (t = "JSAPI") && bool_decide (p !! "openid" = None)); [done|].
    all: destruct (missing_must (injected m p)) as [v|]; [done|].
    all: destruct (unneeded (injected m p)) as [k|]; [done|].
    all: destruct (sign_and_send_outcome (injected m p) s)
           as [[_ [body Hb]]|[[r ->]|(e & -> & _)]]; [by apply Hdec in Hb|done..].
  - split; [|done]. intros _. split; [done|]. left. eauto.
  - split; [done|]. by intros [_ [(? & [=])|(? & ? & [=] & _)]].
Qed.

Lemma UnifiedOrder_panics_witness :
  (∀ body, @xml_Decode quiet_world body ≠ (None, None)) ∧
  returned (UnifiedOrder (W := quiet_world) payer1
              (Some (<["sign_type" := VInt 256]> native_order))) = Panics.
Proof.
  assert (Hd : ∀ body, @xml_Decode quiet_world body ≠ (None, None)) by (intros body; discriminate).
  split; [exact Hd|].
  apply (proj2 (UnifiedOrder_panics (W := quiet_world) payer1
                  (<["sign_type" := VInt 256]> native_order) Hd)).
  split; [reflexivity|]. right. exists "NATIVE", 256. split; reflexivity.
Defined.

(** X10.  With the payer configured, a call on a non-nil map fails with the
    missing-trade-type error exactly when the map has no [trade_type] key;
    no later step returns that error. *)
Theorem UnifiedOrder_trade_type `{W : World} (m : myPayer) (p : Params) :
  checkForPay m = None →
  returned (UnifiedOrder m (Some p)) = Returns (None, Some ErrTradeType) ↔
  p !! "trade_type" = None.
Proof.
  intros Hpay. unfold UnifiedOrder. rewrite Hpay.
  fold (injected m p). rewrite !injected_other by done.
  destruct (p !! "trade_type") as [[t|n]|] eqn:Ht; simpl; [|done..].
  split; [|done].
  destruct (match p !! "sign_type" with
            | Some t0 => assert_string t0
            | None => Some SignTypeMD5
            end) as [s|]; [|done].
  destruct (bool_decide (t = "JSAPI") && bool_decide (p !! "openid" = None)); [done|].
  destruct (missing_must (injected m p)) as [v|]; [done|].
  destruct (unneeded (injected m p)) as [k|]; [done|].
  destruct (sign_and_send_outcome (injected m p) s)
    as [[-> _]|[[r ->]|(e & -> & He)]]; [done..|].
  intros [= ->]. destruct He as [|[|[[? ?]|[? ?]]]]; done.
Qed.

Lemma UnifiedOrder_trade_type_witness :
  @checkForPay quiet_world payer1 = None ∧
  returned (UnifiedOrder (W := quiet_world) payer1 (Some (delete "trade_type" native_order)))
    = Returns (None, Some ErrTradeType).
Proof.
  split; [reflexivity|].
  apply (proj2 (UnifiedOrder_trade_type (W := quiet_world) payer1
                  (delete "trade_type" native_order) eq_refl)).
  reflexivity.
Defined.

(** X11.  When exactly one key of the map is outside the required and
    optional fields, the error names that key, in whatever order the map is
    ranged over: a call that gets as far as the required-field scan with every
    required field present fails with [no need k param] and posts nothing. *)
Theorem UnifiedOrder_names_the_unknown_key `{W : World} (m : myPayer) (p : Params)
    (k : string) :
  reaches_field_checks m p →
  (∀ f, f ∈ unifiedMustParam → is_Some (injected m p !! f)) →
  is_Some (p !! k) → ¬ allowed k →
  (∀ k', is_Some (p !! k') → k' = k ∨ allowed k') →
  UnifiedOrder m (Some p)
  = mkRun (Some (injected m p)) []
      (Returns (None, Some (errors_New ("no need " +:+ k +:+ " param")))).
Proof.
  intros Hr Hmust Hk Hna Honly. rewrite (UnifiedOrder_field_checks m p Hr).
  rewrite (proj2 (missing_must_None _) Hmust).
  destruct (unneeded (injected m p)) as [k'|] eqn:Hu.
  - apply unneeded_Some in Hu as [Hk' Hna'].
    rewrite injected_unknown in Hk' by done.
    destruct (Honly k' Hk') as [->|?]; done.
  - exfalso. apply Hna. rewrite unneeded_None in Hu. apply Hu.
    by rewrite injected_unknown.
Qed.

Lemma UnifiedOrder_names_the_unknown_key_witness :
  returned (UnifiedOrder (W := quiet_world) payer1
              (Some (<["foo" := VStr "1"]> native_order)))
  = Returns (None, Some (errors_New "no need foo param")).
Proof.
  rewrite (UnifiedOrder_names_the_unknown_key (W := quiet_world) payer1
             (<["foo" := VStr "1"]> native_order) "foo").
  - reflexivity.
  - split; [reflexivity|]. split; [left; reflexivity|].
    exists "NATIVE". split; [reflexivity|]. intros [Hj _]. discriminate Hj.
  - apply missing_must_None. reflexivity.
  - eexists. reflexivity.
  - unfold allowed. apply (bool_decide_unpack _). vm_compute. exact I.
  - intros k' Hk'. destruct (decide (k' = "foo")) as [|Hne]; [by left|]. right.
    rewrite lookup_insert_ne in Hk' by done.
    apply elem_of_dom in Hk'. revert Hk'.
    assert (dom native_order ⊆ list_to_set (unifiedMustParam ++ unifiedOptionalParam))
      as Hsub by (apply (bool_decide_unpack _); vm_compute; exact I).
    intros Hk'%Hsub. apply elem_of_list_to_set, elem_of_app in Hk'. exact Hk'.
Defined.

(** ** A changed field changes the hashed string *)

Lemma length_append (s t : string) :
  String.length (s +:+ t) = (String.length s + String.length t)%nat.
Proof. induction s as [|a s IH]; [done|]. rewrite append_cons. simpl. by rewrite IH. Qed.

Lemma append_inv_r (s1 s2 t : string) : s1 +:+ t = s2 +:+ t → s1 = s2.
Proof.
  revert s2. induction s1 as [|a s1 IH]; intros [|b s2] Heq; [done| | |].
  - apply (f_equal String.length) in Heq. rewrite !length_append in Heq.
    simpl in Heq. lia.
  - apply (f_equal String.length) in Heq. rewrite !length_append in Heq.
    simpl in Heq. lia.
  - rewrite !append_cons in Heq. injection Heq as -> Heq. f_equal. by apply IH.
Qed.

Lemma signStr_loop_app (p : Params) (i : nat) (l1 l2 : list string) (acc : string) :
  signStr_loop p i (l1 ++ l2) acc
  = signStr_loop p (i + length l1) l2 (signStr_loop p i l1 acc).
Proof.
  revert i acc. induction l1 as [|k l1 IH]; intros i acc; simpl.
  - by rewrite Nat.add_0_r.
  - replace (i + S (length l1))%nat with (S i + length l1)%nat by lia.
    case_bool_decide; by rewrite IH.
Qed.

Lemma signStr_loop_ext_except (p q : Params) (k : string) (i : nat)
    (keys : list string) (acc : string) :
  k ∉ keys → (∀ k', k' ≠ k → p !! k' = q !! k') →
  signStr_loop p i keys acc = signStr_loop q i keys acc.
Proof.
  intros Hk Hpq. apply signStr_loop_ext. intros k' Hk' _. apply Hpq.
  intros ->. done.
Qed.

(** X13.  Changing the value of one field other than [sign] changes the
    string that [checkWxSign] hashes: two responses whose maps agree at every
    other key and hold different values at that key are never hashed to the
    same string, so a changed field can pass the check only through a
    collision of the digest. *)
Theorem signStr_of_changed_field `{W : World} (u1 u2 : unifiedResult)
    (k v1 v2 : string) :
  k ≠ "sign" →
  (∀ k', k' ≠ k → ListParam u1 !! k' = ListParam u2 !! k') →
  ListParam u1 !! k = Some (VStr v1) → ListParam u2 !! k = Some (VStr v2) →
  v1 ≠ v2 →
  signStr_of u1 ≠ signStr_of u2.
Proof.
  intros Hk Hother H1 H2 Hne.
  assert (Hkeys : SortKey (ListParam u2) = SortKey (ListParam u1)).
  { apply SortKey_is; [apply SortKey_sorted|apply SortKey_NoDup|].
    intros k'. rewrite !elem_of_SortKey. destruct (decide (k' = k)) as [->|Hk'].
    - rewrite H1, H2.
      destruct (ListParam_values u1 k _ H1) as (? & [= <-] & Hz1).
      destruct (ListParam_values u2 k _ H2) as (? & [= <-] & Hz2).
      split; intros _; eexists; (split; [done|]); simpl; by apply bool_decide_eq_false_2.
    - by rewrite (Hother k' Hk'). }
  assert (Hin : k ∈ SortKey (ListParam u1)).
  { apply elem_of_SortKey. eexists. split; [exact H1|].
    destruct (ListParam_values u1 k _ H1) as (? & [= <-] & Hz1).
    simpl. by apply bool_decide_eq_false_2. }
  pose proof (SortKey_NoDup (ListParam u1)) as Hnd.
  unfold signStr_of. rewrite Hkeys.
  apply list_elem_of_split in Hin as (l1 & l2 & Hl). rewrite Hl in *.
  apply NoDup_app in Hnd as (_ & Hl1 & [Hl2 _]%NoDup_cons).
  assert (Hk1 : k ∉ l1) by (intros Hx; apply (Hl1 k Hx), elem_of_cons; auto).
  rewrite !signStr_loop_app.
  rewrite (signStr_loop_ext_except (ListParam u2) (ListParam u1) k 0 l1 "")
    by (done || intros; symmetry; by apply Hother).
  set (acc := signStr_loop (ListParam u1) 0 l1 ""). simpl.
  rewrite !bool_decide_eq_false_2 by done. rewrite !signStr_loop_S.
  rewrite (list_fmap_ext (pair_of (ListParam u2)) (pair_of (ListParam u1))
             (filter (λ k0, k0 ≠ "sign") l2)).
  2: { intros i k' Hk'%list_elem_of_lookup_2. apply list_elem_of_filter in Hk' as [_ Hk'].
       unfold pair_of, Get. rewrite Hother; [done|]. by intros ->. }
  unfold Get. rewrite H1, H2. simpl.
  set (T := amp_join _). intros Heq.
  case_bool_decide; rewrite !append_assoc in Heq;
    repeat apply (inj (String.app _)) in Heq;
    by apply append_inv_r in Heq.
Qed.

Lemma signStr_of_changed_field_witness :
  ListParam signed_response !! "nonce_str" = Some (VStr "n1") ∧
  ListParam tampered_response !! "nonce_str" = Some (VStr "n2") ∧
  signStr_of (W := quiet_world) signed_response
    ≠ signStr_of (W := quiet_world) tampered_response.
Proof.
  assert (H1 : ListParam signed_response !! "nonce_str" = Some (VStr "n1")) by reflexivity.
  assert (H2 : ListParam tampered_response !! "nonce_str" = Some (VStr "n2")) by reflexivity.
  split; [exact H1|]. split; [exact H2|].
  apply (signStr_of_changed_field (W := quiet_world) signed_response tampered_response
           "nonce_str" "n1" "n2"); [discriminate| |exact H1|exact H2|discriminate].
  intros k' Hk'. apply option_eq. intros v. rewrite !ListParam_lookup.
  unfold named_fields, signed_response, tampered_response, prepay_response; simpl.
  split; intros (s & Hs & Hne & ->); exists s; (split; [|done]);
    rewrite !elem_of_cons in Hs; rewrite !elem_of_cons;
    destruct Hs as [?|[?|[?|[?|[?|[[= -> ->]|?]]]]]]; tauto.
Defined.

(** ** Two responses with one hashed string *)

Lemma named_fields_with_ids (u : unifiedResult) (a m k s : string) :
  k ≠ "appid" → k ≠ "mch_id" →
  (k, s) ∈ named_fields (with_ids u a m) ↔ (k, s) ∈ named_fields u.
Proof.
  intros Ha Hm. unfold named_fields, with_ids; simpl. rewrite !elem_of_cons.
  split; intros [?|[?|[[= -> ->]|[[= -> ->]|?]]]]; tauto.
Qed.

Lemma ListParam_with_ids (u : unifiedResult) (a1 m1 a2 m2 k : string) :
  k ≠ "appid" → k ≠ "mch_id" →
  ListParam (with_ids u a1 m1) !! k = ListParam (with_ids u a2 m2) !! k.
Proof.
  intros Ha Hm. apply option_eq. intros v. rewrite !ListParam_lookup.
  split; intros (s & Hs & Hne & ->); exists s; (split; [|done]);
    apply named_fields_with_ids; try done; by apply named_fields_with_ids in Hs.
Qed.

Lemma ListParam_with_ids_appid (u : unifiedResult) (a m : string) :
  a ≠ "" → ListParam (with_ids u a m) !! "appid" = Some (VStr a).
Proof.
  intros Ha. apply ListParam_lookup. exists a. split; [|done].
  unfold named_fields, with_ids; simpl. rewrite !elem_of_cons. tauto.
Qed.

Lemma ListParam_with_ids_mch_id (u : unifiedResult) (a m : string) :
  ListParam (with_ids u a m) !! "mch_id" = if decide (m = "") then None else Some (VStr m).
Proof.
  case_decide as Hz.
  - apply eq_None_not_Some. intros [v Hv].
    apply ListParam_lookup in Hv as (s & Hs & Hne & _).
    unfold named_fields, with_ids in Hs; simpl in Hs.
    field_cases Hs. congruence.
  - apply ListParam_lookup. exists m. split; [|done].
    unfold named_fields, with_ids; simpl. rewrite !elem_of_cons. tauto.
Qed.

Section ambiguity.
Context `{W : World}.
Context (u : unifiedResult) (x y : string).
Hypothesis x_set : x ≠ "".
Hypothesis y_set : y ≠ "".
Hypothesis between_empty :
  CodeUrl u = "" ∧ DeviceInfo u = "" ∧ ErrCode u = "" ∧ ErrCodeDes u = "".

(** The sorted keys after [mch_id]. *)
Let rest : list string :=
  filter (λ k, k ≠ "appid" ∧ k ≠ "mch_id") (SortKey (ListParam (with_ids u x y))).

Lemma rest_after_mch_id (k : string) :
  k ∈ rest → String.le "appid" k ∧ String.le "mch_id" k.
Proof.
  destruct between_empty as (E1 & E2 & E3 & E4).
  intros [[Ha Hm] Hk]%list_elem_of_filter.
  apply elem_of_SortKey_ListParam in Hk as (s & Hs & Hne).
  apply named_fields_with_ids in Hs; [|done..].
  field_cases Hs; simplify_eq; try congruence; by vm_compute.
Qed.

Lemma rest_sorted (more : list string) :
  Forall (λ k, k = "appid" ∨ k = "mch_id") more → NoDup more →
  StronglySorted String.le more →
  StronglySorted String.le (more ++ rest) ∧ NoDup (more ++ rest).
Proof.
  intros Hmore Hnd Hs. rewrite Forall_forall in Hmore. split.
  - apply StronglySorted_app. split_and!; [|done|].
    + intros k1 k2 H1 H2. apply rest_after_mch_id in H2 as [Ha Hm].
      by destruct (Hmore k1 H1) as [-> | ->].
    + apply StronglySorted_filter, SortKey_sorted.
  - apply NoDup_app. split_and!; [done| |apply NoDup_filter, SortKey_NoDup].
    intros k H1 [[Ha Hm] _]%list_elem_of_filter. by destruct (Hmore k H1).
Qed.

Lemma SortKey_split_ids :
  SortKey (ListParam (with_ids u x y)) = "appid" :: "mch_id" :: rest.
Proof.
  destruct (rest_sorted ["appid"; "mch_id"]) as [Hs Hnd].
  { apply Forall_forall. intros k Hk. rewrite !elem_of_cons, elem_of_nil in Hk. tauto. }
  { apply (bool_decide_unpack _). by vm_compute. }
  { repeat constructor; by vm_compute. }
  apply SortKey_is; [done..|]. intros k. rewrite !elem_of_cons.
  unfold rest. rewrite list_elem_of_filter, !elem_of_SortKey. split.
  - intros Hk. destruct (decide (k = "appid")); [tauto|].
    destruct (decide (k = "mch_id")); tauto.
  - intros [->|[->|[_ Hk]]]; [| |done].
    + exists (VStr x). rewrite ListParam_with_ids_appid by done.
      split; [done|]. simpl. by apply bool_decide_eq_false_2.
    + exists (VStr y). rewrite ListParam_with_ids_mch_id, decide_False by done.
      split; [done|]. simpl. by apply bool_decide_eq_false_2.
Qed.

Lemma SortKey_merged_ids (a : string) :
  a ≠ "" → SortKey (ListParam (with_ids u a "")) = "appid" :: rest.
Proof.
  intros Ha. destruct (rest_sorted ["appid"]) as [Hs Hnd].
  { apply Forall_forall. intros k Hk. rewrite !elem_of_cons, elem_of_nil in Hk. tauto. }
  { apply NoDup_singleton. }
  { repeat constructor. }
  apply SortKey_is; [done..|]. intros k. rewrite !elem_of_cons.
  unfold rest. rewrite list_elem_of_filter, !elem_of_SortKey.
  destruct (decide (k = "appid")) as [->|Hka].
  { split; [tauto|]. intros _. exists (VStr a).
    rewrite ListParam_with_ids_appid by done.
    split; [done|]. simpl. by apply bool_decide_eq_false_2. }
  destruct (decide (k = "mch_id")) as [->|Hkm].
  { rewrite ListParam_with_ids_mch_id, decide_True by done.
    split; [by intros (? & [=] & _)|]. intros [[=]|[[_ []] _]]. done. }
  rewrite (ListParam_with_ids u a "" x y k) by done. tauto.
Qed.

Lemma signStr_of_merged_ids :
  signStr_of (with_ids u (x +:+ "&mch_id=" +:+ y) "") = signStr_of (with_ids u x y).
Proof.
  assert (Ha : x +:+ "&mch_id=" +:+ y ≠ "").
  { destruct x; [done|]. by rewrite append_cons. }
  unfold signStr_of. rewrite SortKey_split_ids, (SortKey_merged_ids _ Ha). f_equal.
  simpl. rewrite !signStr_loop_S. unfold Get.
  rewrite (ListParam_with_ids_appid u _ "" Ha), (ListParam_with_ids_appid u x y x_set).
  rewrite ListParam_with_ids_mch_id, decide_False by done. simpl.
  rewrite (list_fmap_ext (pair_of (ListParam (with_ids u (x +:+ "&mch_id=" +:+ y) "")))
             (pair_of (ListParam (with_ids u x y)))
             (filter (λ k, k ≠ "sign") rest)).
  2: { intros i k Hk%list_elem_of_lookup_2. apply list_elem_of_filter in Hk as [_ Hk].
       apply list_elem_of_filter in Hk as [[Hka Hkm] _].
       unfold pair_of, Get. by rewrite (ListParam_with_ids u _ "" x y k). }
  by rewrite !append_assoc.
Qed.

End ambiguity.

(** X14.  The hashed string does not tell where one field ends and the next
    begins.  When nothing is set between [appid] and [mch_id] in sorted order
    ([code_url], [device_info], [err_code], [err_code_des] empty), a response
    with [appid] equal to [x] and [mch_id] equal to [y] and the response with
    [appid] equal to [x&mch_id=y] and no [mch_id] are hashed to the same
    string, so [checkWxSign] gives the same answer on both. *)
Theorem checkWxSign_merged_fields `{W : World} (u : unifiedResult)
    (x y signType : string) :
  x ≠ "" → y ≠ "" →
  CodeUrl u = "" ∧ DeviceInfo u = "" ∧ ErrCode u = "" ∧ ErrCodeDes u = "" →
  signStr_of (with_ids u (x +:+ "&mch_id=" +:+ y) "") = signStr_of (with_ids u x y) ∧
  checkWxSign (with_ids u (x +:+ "&mch_id=" +:+ y) "") signType
  = checkWxSign (with_ids u x y) signType.
Proof.
  intros Hx Hy He.
  pose proof (signStr_of_merged_ids u x y Hx Hy He) as Heq. split; [done|].
  destruct (decide (supported signType)) as [Hs|Hs].
  - rewrite !checkWxSign_supported by done. unfold wxSign. by rewrite Heq.
  - by rewrite !checkWxSign_unsupported.
Qed.

Lemma checkWxSign_merged_fields_witness :
  checkWxSign (W := quiet_world) (with_ids signed_response "wx1&mch_id=m1" "") "MD5"
  = Returns (true, None) ∧
  with_ids signed_response "wx1&mch_id=m1" "" ≠ signed_response.
Proof.
  split; [|discriminate].
  refine (eq_trans (proj2 (checkWxSign_merged_fields (W := quiet_world) signed_response
                             "wx1" "m1" "MD5" _ _ _)) _);
    [discriminate|discriminate|repeat split|by vm_compute].
Defined.
